(** * task_automator: backup, cleaning and organising of directory trees

    A shallow embedding of [src/utilities/task_automator.py] and the
    properties of its three public operations, [backup_directory],
    [clean_directory] and [organize_files], and of the menu [main] that
    calls them.

    Modelling choices, fixed once for the whole development:
    - a resolved [pathlib.Path] is the list of its parts below [/];
      [path_str] renders it the way [str(path)] does;
    - the file system is a tree of regular files and directories (no
      symbolic links, every directory can be listed); a directory keeps its
      entries in listing order, which is the order [os.scandir] yields;
    - Python floats (time stamps) are read as exact rationals;
    - an exception is a value of [exn]; a function body runs in a small
      state-and-error monad and [try ... except Exception] is [try_except];
    - the clock is an argument: [timestamp], [current_time] and [now]
      stand for what [datetime.now()] and [time.time()] return;
    - the destination of a backup lies outside the source tree and can be
      created; the state of a backup is what the destination holds;
    - the destination folder of a rule of [organize_files] is the list of
      the parts of its path below the directory that is organised;
    - standard input is the list of its lines and text is ASCII; [main] is
      the trace of what it prints, asks and calls;
    - the library calls the program makes ([fnmatch], [os.walk],
      [os.path.relpath], [shutil.copytree], [shutil.move], [os.makedirs])
      are modelled after the CPython library for POSIX paths. *)

From Stdlib Require Import String Ascii List Bool Arith ZArith QArith Lia.
Import ListNotations.

Local Close Scope Q_scope.
Local Open Scope string_scope.
Local Open Scope list_scope.

(* ================================================================== *)
(** ** Strings and POSIX path text *)
(* ================================================================== *)

Module PathText.

Definition sep : ascii := "/"%char.

(** [s.startswith(p)] *)
Fixpoint startswith (s p : string) {struct p} : bool :=
  match p with
  | EmptyString => true
  | String b p' =>
      match s with
      | EmptyString => false
      | String a s' => Ascii.eqb a b && startswith s' p'
      end
  end.

(** [s.endswith(suf)] *)
Fixpoint endswith (s suf : string) : bool :=
  (s =? suf) ||
  match s with
  | EmptyString => false
  | String _ r => endswith r suf
  end.

(** [sep in s] *)
Fixpoint has_sep (s : string) : bool :=
  match s with
  | EmptyString => false
  | String c r => Ascii.eqb c sep || has_sep r
  end.

(** [s.split('/')] *)
Fixpoint split_sep (s : string) : list string :=
  match s with
  | EmptyString => [""]
  | String c r =>
      if Ascii.eqb c sep then "" :: split_sep r
      else match split_sep r with
           | [] => [String c ""]
           | h :: t => String c h :: t
           end
  end.

(** [os.path.join(a, b)] of posixpath *)
Definition os_path_join (a b : string) : string :=
  if startswith b "/" then b
  else if (a =? "") || endswith a "/" then a ++ b
  else a ++ "/" ++ b.

(** [os.path.join] applied to a whole list of components *)
Definition os_path_join_all (parts : list string) : string :=
  match parts with
  | [] => ""
  | p :: ps => fold_left os_path_join ps p
  end.

(** A name that a directory listing can hold: not empty, not [.] or [..],
    and without a separator. *)
Definition valid_name (s : string) : bool :=
  negb (s =? "") && negb (s =? ".") && negb (s =? "..") && negb (has_sep s).

(** Every name of a list is one a listing can hold. *)
Definition valid_names (l : list string) : Prop :=
  Forall (fun s => valid_name s = true) l.

(** A resolved absolute path, as the list of its parts. *)
Definition path := list string.

(** [str(p)] for a resolved absolute path. *)
Definition path_str (p : path) : string := "/" ++ String.concat "/" p.

(** [Path(p).name] *)
Definition path_name (p : path) : string := last p "".

(** The loop of [posixpath.normpath] over the components of an absolute
    path; [acc] is [new_comps], most recent first. *)
Fixpoint norm_comps (acc : list string) (comps : list string) : list string :=
  match comps with
  | [] => rev acc
  | c :: cs =>
      if (c =? "") || (c =? ".") then norm_comps acc cs
      else if c =? ".." then norm_comps (tl acc) cs
      else norm_comps (c :: acc) cs
  end.

(** The parts of [os.path.abspath(s)] for an absolute [s]:
    [[x for x in abspath(s).split(sep) if x]]. *)
Definition abs_parts (s : string) : list string := norm_comps [] (split_sep s).

(** [os.path.commonprefix] of two lists. *)
Fixpoint commonprefix (a b : list string) : list string :=
  match a, b with
  | x :: a', y :: b' => if x =? y then x :: commonprefix a' b' else []
  | _, _ => []
  end.

(** [os.path.relpath(p, start)] for absolute [p] and [start]. *)
Definition relpath (p start : string) : string :=
  let start_list := abs_parts start in
  let path_list := abs_parts p in
  let i := List.length (commonprefix start_list path_list) in
  let rel_list := repeat ".." (List.length start_list - i) ++ skipn i path_list in
  match rel_list with
  | [] => "."
  | _ => os_path_join_all rel_list
  end.

(** ['.' in s] *)
Fixpoint has_dot (s : string) : bool :=
  match s with
  | EmptyString => false
  | String c r => Ascii.eqb c "."%char || has_dot r
  end.


(** [pathlib]: split a name at its last dot. *)
Fixpoint rsplit_dot (s : string) : option (string * string) :=
  match s with
  | EmptyString => None
  | String c r =>
      match rsplit_dot r with
      | Some (a, b) => Some (String c a, b)
      | None => if Ascii.eqb c "."%char then Some ("", r) else None
      end
  end.

(** [PurePath.suffix]: the last dot and what follows, when the dot is
    neither the first nor the last character of the name. *)
Definition suffix (name : string) : string :=
  match rsplit_dot name with
  | Some (a, b) => if (a =? "") || (b =? "") then "" else String "."%char b
  | None => ""
  end.

(** [PurePath.stem] *)
Definition stem (name : string) : string :=
  match rsplit_dot name with
  | Some (a, b) => if (a =? "") || (b =? "") then name else a
  | None => name
  end.

Definition lower_ascii (c : ascii) : ascii :=
  let n := nat_of_ascii c in
  if (65 <=? n)%nat && (n <=? 90)%nat then ascii_of_nat (n + 32) else c.

(** [s.lower()] on ASCII text *)
Fixpoint lower (s : string) : string :=
  match s with
  | EmptyString => EmptyString
  | String c r => String (lower_ascii c) (lower r)
  end.

(** [s.lstrip('.')] *)
Fixpoint lstrip_dot (s : string) : string :=
  match s with
  | String c r => if Ascii.eqb c "."%char then lstrip_dot r else s
  | EmptyString => EmptyString
  end.

End PathText.

(* ================================================================== *)
(** ** Shell patterns: [fnmatch.fnmatch] *)
(* ================================================================== *)

Module Fnmatch.

(** What [fnmatch.translate] turns a pattern into. *)
Inductive tok : Type :=
| TStar
| TAny
| TSet (negated : bool) (ranges : list (ascii * ascii))
| TLit (c : ascii).

(** The items of a bracket expression: [lo-hi] is a range, any other
    character stands for itself. *)
Fixpoint set_items (cs : list ascii) : list (ascii * ascii) :=
  match cs with
  | [] => []
  | lo :: rest =>
      match rest with
      | "-"%char :: hi :: rest' => (lo, hi) :: set_items rest'
      | _ => (lo, lo) :: set_items rest
      end
  end.

(** The text of a bracket expression up to its closing bracket, and what
    follows the bracket. *)
Fixpoint until_rbracket (cs : list ascii) : option (list ascii * list ascii) :=
  match cs with
  | [] => None
  | c :: r =>
      if Ascii.eqb c "]"%char then Some ([], r)
      else match until_rbracket r with
           | Some (body, rest) => Some (c :: body, rest)
           | None => None
           end
  end.

(** [fnmatch.translate]; [fuel] bounds the number of tokens. *)
Fixpoint translate_fuel (fuel : nat) (cs : list ascii) : list tok :=
  match fuel with
  | O => []
  | S fuel' =>
      match cs with
      | [] => []
      | c :: r =>
          if Ascii.eqb c "*"%char then TStar :: translate_fuel fuel' r
          else if Ascii.eqb c "?"%char then TAny :: translate_fuel fuel' r
          else if Ascii.eqb c "["%char then
            let (neg, r1) :=
              match r with
              | "!"%char :: r' => (true, r')
              | _ => (false, r)
              end in
            let (first, r2) :=
              match r1 with
              | "]"%char :: r' => (["]"%char], r')
              | _ => ([], r1)
              end in
            match until_rbracket r2 with
            | None => TLit c :: translate_fuel fuel' r
            | Some (body, rest) =>
                TSet neg (set_items (first ++ body)) :: translate_fuel fuel' rest
            end
          else TLit c :: translate_fuel fuel' r
      end
  end.

Definition translate (pat : string) : list tok :=
  translate_fuel (String.length pat) (list_ascii_of_string pat).

Definition in_range (c : ascii) (r : ascii * ascii) : bool :=
  (nat_of_ascii (fst r) <=? nat_of_ascii c)%nat &&
  (nat_of_ascii c <=? nat_of_ascii (snd r))%nat.

(** One pattern token against one character. *)
Definition tok_char (t : tok) (c : ascii) : bool :=
  match t with
  | TStar => true
  | TAny => true
  | TSet neg rs => xorb neg (existsb (in_range c) rs)
  | TLit c' => Ascii.eqb c' c
  end.

(** The whole of [s] against the token list, as [re.match] of the
    translated pattern (which ends in [\Z]) decides it. *)
Fixpoint match_toks (ts : list tok) (s : string) {struct ts} : bool :=
  match ts with
  | [] => s =? ""
  | TStar :: ts' =>
      (fix star (s : string) : bool :=
         match_toks ts' s ||
         match s with
         | EmptyString => false
         | String _ r => star r
         end) s
  | t :: ts' =>
      match s with
      | EmptyString => false
      | String c r => tok_char t c && match_toks ts' r
      end
  end.

(** [fnmatch.fnmatch(name, pat)] on POSIX, where [normcase] is the
    identity. *)
Definition fnmatch (name pat : string) : bool := match_toks (translate pat) name.

(** A character that stands for itself in a pattern. *)
Definition plain_char (c : ascii) : bool :=
  negb (Ascii.eqb c "*"%char) && negb (Ascii.eqb c "?"%char) && negb (Ascii.eqb c "["%char).

Fixpoint plain (s : string) : bool :=
  match s with
  | EmptyString => true
  | String c r => plain_char c && plain r
  end.

End Fnmatch.

(* ================================================================== *)
(** ** Exceptions and the monad of function bodies *)
(* ================================================================== *)

(** The exceptions the operations meet; all are subclasses of Python's
    [Exception]. *)
Inductive exn : Type :=
| FileNotFoundError
| FileExistsError
| NotADirectoryError
| IsADirectoryError
| PermissionError
| ValueError
| ShutilError.

Inductive result (A : Type) : Type :=
| Ok (a : A)
| Raise (e : exn).
Arguments Ok {A} a.
Arguments Raise {A} e.

(** A computation over a state [S]: the state it leaves is kept when it
    raises, as the effects of a Python call are. *)
Definition M (S A : Type) : Type := S -> result A * S.

Definition ret {S A} (a : A) : M S A := fun s => (Ok a, s).

Definition bind {S A B} (c : M S A) (k : A -> M S B) : M S B :=
  fun s =>
    match c s with
    | (Ok a, s') => k a s'
    | (Raise e, s') => (Raise e, s')
    end.

Definition raise {S A} (e : exn) : M S A := fun s => (Raise e, s).
Definition get {S} : M S S := fun s => (Ok s, s).
Definition put {S} (s : S) : M S unit := fun _ => (Ok tt, s).

(** [try: c  except Exception: h] *)
Definition try_except {S A} (c : M S A) (h : exn -> M S A) : M S A :=
  fun s =>
    match c s with
    | (Ok a, s') => (Ok a, s')
    | (Raise e, s') => h e s'
    end.

Declare Scope monad_scope.
Delimit Scope monad_scope with monad.
Notation "x <- c ;; k" := (bind c (fun x => k))
  (at level 61, c at next level, right associativity) : monad_scope.
Notation "c ;;; k" := (bind c (fun _ => k))
  (at level 61, right associativity) : monad_scope.

(** [for x in l: body(x)] *)
Fixpoint for_each {S A} (l : list A) (body : A -> M S unit) : M S unit :=
  match l with
  | [] => ret tt
  | x :: l' => bind (body x) (fun _ => for_each l' body)
  end.

(* ================================================================== *)
(** ** The file system *)
(* ================================================================== *)

Module FS.
Import PathText.

Record file : Type := mkFile {
  f_data : string;       (* the content *)
  f_mtime : Q;           (* st_mtime, seconds since the epoch *)
  f_readable : bool;     (* open(..., 'rb') succeeds *)
  f_removable : bool     (* os.remove succeeds *)
}.

(** [st_size] *)
Definition f_size (f : file) : Z := Z.of_nat (String.length (f_data f)).

#[warnings="-register-all"]
Inductive node : Type :=
| File (f : file)
| Dir (entries : list (string * node)).

Definition entries := list (string * node).

Definition is_dir (n : node) : bool :=
  match n with Dir _ => true | File _ => false end.

Definition is_file (n : node) : bool :=
  match n with File _ => true | Dir _ => false end.

(** The entry called [name] in a listing. *)
Fixpoint child (name : string) (es : entries) : option node :=
  match es with
  | [] => None
  | (n, c) :: es' => if n =? name then Some c else child name es'
  end.

(** The node at a relative path. *)
Fixpoint tree_get (p : list string) (n : node) : option node :=
  match p with
  | [] => Some n
  | s :: p' =>
      match n with
      | Dir es =>
          match child s es with
          | Some c => tree_get p' c
          | None => None
          end
      | File _ => None
      end
  end.

(** The names of the sub-directories and the regular files of a
    listing, as [os.walk] separates them. *)
Definition dir_names (es : entries) : list string :=
  map fst (filter (fun e => is_dir (snd e)) es).

Fixpoint files_of (es : entries) : list (string * file) :=
  match es with
  | [] => []
  | (n, File f) :: es' => (n, f) :: files_of es'
  | (_, Dir _) :: es' => files_of es'
  end.

(** [os.walk(top)] top-down, as the caller sees it when its loop body
    replaces [dirs] by the names [keep root] accepts before the walk goes
    on: one triple [(root, dirs, files)] per visited directory, the
    sub-directories that were kept being walked in turn.  A [top] that is
    not a directory yields nothing.  Each file name comes with the file it
    denotes. *)
Fixpoint os_walk (keep : string -> string -> bool) (top : string) (n : node)
  : list (string * list string * list (string * file)) :=
  match n with
  | File _ => []
  | Dir es =>
      (top, filter (keep top) (dir_names es), files_of es) ::
      (fix visit (l : entries) :=
         match l with
         | [] => []
         | (d, c) :: l' =>
             if is_dir c && keep top d
             then os_walk keep (os_path_join top d) c ++ visit l'
             else visit l'
         end) es
  end.


(** *** Changing the tree *)

(** Replace the entry called [name], or add it at the end of the
    listing. *)
Fixpoint set_child (name : string) (c : node) (es : entries) : entries :=
  match es with
  | [] => [(name, c)]
  | (n, c0) :: es' =>
      if n =? name then (n, c) :: es' else (n, c0) :: set_child name c es'
  end.

(** Drop the entry called [name]. *)
Fixpoint del_child (name : string) (es : entries) : entries :=
  match es with
  | [] => []
  | (n, c0) :: es' =>
      if n =? name then del_child name es' else (n, c0) :: del_child name es'
  end.

(** Put [new] at the relative path [p]; the directory that is to hold it
    exists. *)
Fixpoint tree_set (p : list string) (new : node) (n : node) : node :=
  match p with
  | [] => new
  | s :: p' =>
      match n with
      | Dir es =>
          match child s es with
          | Some c => Dir (set_child s (tree_set p' new c) es)
          | None =>
              match p' with
              | [] => Dir (set_child s new es)
              | _ => n
              end
          end
      | File _ => n
      end
  end.

(** Remove the entry at the relative path [p]. *)
Fixpoint tree_del (p : list string) (n : node) : node :=
  match p with
  | [] => n
  | s :: p' =>
      match n with
      | Dir es =>
          match p' with
          | [] => Dir (del_child s es)
          | _ =>
              match child s es with
              | Some c => Dir (set_child s (tree_del p' c) es)
              | None => n
              end
          end
      | File _ => n
      end
  end.

(** [Path.exists()] *)
Definition exists_at (p : list string) (n : node) : bool :=
  match tree_get p n with
  | Some _ => true
  | None => false
  end.

(** [Path.is_file()] *)
Definition is_file_at (p : list string) (n : node) : bool :=
  match tree_get p n with
  | Some (File _) => true
  | _ => false
  end.

(** [os.remove(p)] *)
Definition os_remove (p : list string) : M node unit :=
  fun n =>
    match tree_get p n with
    | Some (File f) =>
        if f_removable f then (Ok tt, tree_del p n) else (Raise PermissionError, n)
    | Some (Dir _) => (Raise IsADirectoryError, n)
    | None => (Raise FileNotFoundError, n)
    end.

(** [os.makedirs(p, exist_ok=True)] below the directory [n]: missing
    directories are created, existing ones are kept, and a regular file in
    the way raises. *)
Fixpoint makedirs (p : list string) (n : node) : result node :=
  match p with
  | [] =>
      match n with
      | Dir _ => Ok n
      | File _ => Raise FileExistsError
      end
  | s :: p' =>
      match n with
      | File _ => Raise NotADirectoryError
      | Dir es =>
          match makedirs p' (match child s es with Some c => c | None => Dir [] end) with
          | Ok c' => Ok (Dir (set_child s c' es))
          | Raise e => Raise e
          end
      end
  end.

(** [shutil.move(src, dst)] for a regular file [src] of the top listing:
    into [dst] when [dst] is a directory (an entry of that name there is an
    error), onto [dst] otherwise, replacing a file that is there. *)
Definition shutil_move (name : string) (dst : list string) : M node unit :=
  fun n =>
    match tree_get [name] n with
    | Some (File f) =>
        match tree_get dst n with
        | Some (Dir _) =>
            let real_dst := (dst ++ [name])%list in
            if exists_at real_dst n then (Raise ShutilError, n)
            else (Ok tt, tree_set real_dst (File f) (tree_del [name] n))
        | _ =>
            if list_eq_dec string_dec dst [name] then (Ok tt, n)
            else
              match tree_get (removelast dst) n with
              | Some (Dir _) => (Ok tt, tree_set dst (File f) (tree_del [name] n))
              | _ => (Raise FileNotFoundError, n)
              end
        end
    | _ => (Raise FileNotFoundError, n)
    end.

(** [Path.glob(pattern)] in a listing, for a pattern of one segment: the
    entries whose name the pattern matches, dot files included; the empty
    pattern is refused. *)
Definition glob1 (es : entries) (pattern : string) : result (list (list string)) :=
  if pattern =? "" then Raise ValueError
  else Ok (map (fun name => [name])
             (filter (fun name => Fnmatch.fnmatch name pattern) (map fst es))).

(** Every name in the tree is one a directory listing can hold. *)
Fixpoint wf_node (n : node) : bool :=
  match n with
  | File _ => true
  | Dir es =>
      (fix all (l : entries) : bool :=
         match l with
         | [] => true
         | (name, c) :: l' => valid_name name && wf_node c && all l'
         end) es
  end.

(** [at_path rel n m]: following the names [rel] down from [n] leads to
    [m]. *)
Inductive at_path : list string -> node -> node -> Prop :=
| at_here (n : node) : at_path [] n n
| at_child (es : entries) (name : string) (c : node) (rel : list string) (m : node) :
    In (name, c) es -> at_path rel c m -> at_path (name :: rel) (Dir es) m.


(** No two names of a list are the same. *)
Fixpoint distinct (l : list string) : bool :=
  match l with
  | [] => true
  | x :: r => negb (existsb (String.eqb x) r) && distinct r
  end.

(** Every listing of the tree names each of its entries once, as the
    listings of a real directory do. *)
Fixpoint distinct_names (n : node) : bool :=
  match n with
  | File _ => true
  | Dir es =>
      distinct (map fst es) &&
      (fix all (l : entries) : bool :=
         match l with
         | [] => true
         | (_, c) :: l' => distinct_names c && all l'
         end) es
  end.



(** Every directory the walk kept on the way down to [rel]. *)
Definition kept_chain (keep : string -> string -> bool) (p rel : list string) : Prop :=
  forall anc d rest, rel = (anc ++ d :: rest)%list -> keep (path_str (p ++ anc)) d = true.

Section node_induction.
Variable P : node -> Prop.
Hypothesis P_file : forall f, P (File f).
Hypothesis P_dir : forall es, Forall (fun e => P (snd e)) es -> P (Dir es).

Fixpoint node_ind' (n : node) : P n :=
    match n with
    | File f => P_file f
    | Dir es =>
        P_dir es
          ((fix all (l : entries) : Forall (fun e => P (snd e)) l :=
              match l with
              | [] => Forall_nil _
              | e :: l' => Forall_cons e (node_ind' (snd e)) (all l')
              end) es)
    end.
End node_induction.


End FS.

(* ================================================================== *)
(** ** [backup_directory] *)
(* ================================================================== *)

Module Backup.
Import PathText Fnmatch FS.
Local Open Scope monad_scope.

(** What a backup leaves in the destination directory. *)
Inductive artifact : Type :=
| ZipArchive (members : list (string * string))   (* (arcname, content) *)
| CopiedTree (es : entries).

(** The destination directory: the artifacts it holds, by name.  It lies
    outside the source tree and [os.makedirs] can create it. *)
Definition dest_dir := list (string * artifact).

Fixpoint dest_get (name : string) (d : dest_dir) : option artifact :=
  match d with
  | [] => None
  | (n, a) :: d' => if n =? name then Some a else dest_get name d'
  end.

Fixpoint dest_set (name : string) (a : artifact) (d : dest_dir) : dest_dir :=
  match d with
  | [] => [(name, a)]
  | (n, a') :: d' =>
      if n =? name then (n, a) :: d' else (n, a') :: dest_set name a d'
  end.


(** [exclude_patterns and any(fnmatch(p, pattern) for pattern in
    exclude_patterns)]: [None] and the empty list are both falsy. *)
Definition excluded (exclude_patterns : option (list string)) (p : string) : bool :=
  match exclude_patterns with
  | Some ((_ :: _) as ps) => existsb (fnmatch p) ps
  | _ => false
  end.

(** The in-place pruning of [dirs] in the walk's loop body: [d] stays when
    no pattern matches [os.path.join(root, d)]. *)
Definition keep_dir (exclude_patterns : option (list string)) (root d : string) : bool :=
  negb (excluded exclude_patterns (os_path_join root d)).

(** The open [ZipFile] (its members so far) and [file_count]. *)
Definition zip_state := (list (string * string) * nat)%type.

(** [zipf.write(file_path, arcname)]: reading an unreadable file raises and
    adds no member. *)
Definition zipf_write (arcname : string) (f : file) : M zip_state unit :=
  fun st =>
    if f_readable f
    then (Ok tt, (fst st ++ [(arcname, f_data f)], snd st))
    else (Raise PermissionError, st).

Definition incr_file_count : M zip_state unit :=
  fun st => (Ok tt, (fst st, S (snd st))).

(** The body of [with zipfile.ZipFile(...) as zipf]. *)
Definition archive_loop (exclude_patterns : option (list string))
    (source_path : string) (src : node) : M zip_state unit :=
  for_each (os_walk (keep_dir exclude_patterns) source_path src)
    (fun '(root, _, files) =>
       for_each files
         (fun '(file, f) =>
            let file_path := os_path_join root file in
            if excluded exclude_patterns file_path then ret tt
            else
              let arcname := relpath file_path source_path in
              zipf_write arcname f ;;;
              incr_file_count)).

(** [shutil.ignore_patterns(...)] applied to one name of a listing. *)
Definition ignored (pats : list string) (name : string) : bool :=
  existsb (fnmatch name) pats.

(** [shutil.copytree(src, dst, ignore=...)]: the tree it creates at [dst]
    and the errors it collects (the paths it could not copy); it goes on
    after an error and raises at the end. *)
Fixpoint copytree (ign : string -> bool) (src : string) (n : node)
  : entries * list string :=
  match n with
  | File _ => ([], [])
  | Dir es =>
      (fix copy_all (l : entries) : entries * list string :=
         match l with
         | [] => ([], [])
         | (name, c) :: l' =>
             if ign name then copy_all l'
             else
               let srcname := os_path_join src name in
               match c with
               | File f =>
                   let (cs, errs) := copy_all l' in
                   if f_readable f then ((name, File f) :: cs, errs)
                   else (cs, srcname :: errs)
               | Dir _ =>
                   let (sub, errs1) := copytree ign srcname c in
                   let (cs, errs2) := copy_all l' in
                   ((name, Dir sub) :: cs, errs1 ++ errs2)
               end
         end) es
  end.

(** [zip_file if zip_file.endswith('.zip') else f"{zip_file}.zip"] *)
Definition zip_filename (zip_file : string) : string :=
  if endswith zip_file ".zip" then zip_file else zip_file ++ ".zip".

(** The [try] block of [backup_directory].  [fs] is the file system, [source]
    and [dest] the resolved source and destination, [timestamp] what
    [datetime.now().strftime] returns; the state is the content of the
    destination directory. *)
Definition backup_body (fs : node) (source dest : path)
    (zip_file : option string) (exclude_patterns : option (list string))
    (timestamp : string) : M dest_dir string :=
  let source_path := path_str source in
  match tree_get source fs with
  | None => raise FileNotFoundError
  | Some src =>
      match zip_file with
      | Some (String _ _ as zf) =>
          let backup_name :=
            (path_name source ++ "_" ++ timestamp ++ "_" ++ zip_filename zf)%string in
          fun d =>
            match dest_get backup_name d with
            | Some (CopiedTree _) => (Raise IsADirectoryError, d)
            | _ =>
                let '(r, (members, _)) :=
                  archive_loop exclude_patterns source_path src ([], O) in
                (* leaving the [with] block closes the archive, also when
                   the block raised *)
                let d' := dest_set backup_name (ZipArchive members) d in
                match r with
                | Ok _ => (Ok (path_str (dest ++ [backup_name])), d')
                | Raise e => (Raise e, d')
                end
            end
      | _ =>
          let backup_name := (path_name source ++ "_" ++ timestamp)%string in
          match src with
          | File _ => raise NotADirectoryError
          | Dir _ =>
              fun d =>
                match dest_get backup_name d with
                | Some _ => (Raise FileExistsError, d)
                | None =>
                    let ign :=
                      match exclude_patterns with
                      | Some ((_ :: _) as ps) => ignored ps
                      | _ => fun _ => false
                      end in
                    let (copied, errors) := copytree ign source_path src in
                    let d' := dest_set backup_name (CopiedTree copied) d in
                    match errors with
                    | [] => (Ok (path_str (dest ++ [backup_name])), d')
                    | _ => (Raise ShutilError, d')
                    end
                end
          end
      end
  end.

(** [backup_directory]: the backup path, or [None] when the body raised. *)
Definition backup_directory (fs : node) (source dest : path)
    (zip_file : option string) (exclude_patterns : option (list string))
    (timestamp : string) : M dest_dir (option string) :=
  try_except
    (backup_path <- backup_body fs source dest zip_file exclude_patterns timestamp ;;
     ret (Some backup_path))
    (fun _ => ret None).

(** The files the walk reaches, in the order the loop meets them, each as
    [(file_path, file)]. *)
Definition visited_files (exclude_patterns : option (list string))
    (source_path : string) (src : node) : list (string * file) :=
  flat_map
    (fun '(root, _, files) =>
       map (fun '(file, f) => (os_path_join root file, f)) files)
    (os_walk (keep_dir exclude_patterns) source_path src).

(** The members of the archive the zip mode leaves at its backup path. *)
Definition zip_members (exclude_patterns : option (list string))
    (source : path) (src : node) : list (string * string) :=
  fst (snd (archive_loop exclude_patterns (path_str source) src ([], O))).

(** The name of the archive the zip mode writes. *)
Definition zip_backup_name (source : path) (timestamp zip_file : string) : string :=
  path_name source ++ "_" ++ timestamp ++ "_" ++ zip_filename zip_file.

(** Where an archive member lands when the archive is extracted under
    [root]: [os.path.abspath(os.path.join(root, arcname))]. *)
Definition extract_target (root : path) (arcname : string) : list string :=
  abs_parts (os_path_join (path_str root) arcname).

(** The relative paths of the regular files of a copied tree. *)
Fixpoint tree_files (n : node) : list (list string) :=
  match n with
  | File _ => [[]]
  | Dir es =>
      (fix all (l : entries) : list (list string) :=
         match l with
         | [] => []
         | (name, c) :: l' => (map (cons name) (tree_files c) ++ all l')%list
         end) es
  end.


(** One turn of the inner loop, on the joined path of the file. *)
Definition write_one (exclude_patterns : option (list string)) (source_path : string)
    (x : string * file) : M zip_state unit :=
  if excluded exclude_patterns (fst x) then ret tt
  else zipf_write (relpath (fst x) source_path) (snd x) ;;; incr_file_count.

(** The visited files no pattern excludes: the ones the loop hands to
    [zipf.write]. *)
Definition candidates (exclude_patterns : option (list string))
    (source_path : string) (src : node) : list (string * file) :=
  filter (fun x => negb (excluded exclude_patterns (fst x)))
         (visited_files exclude_patterns source_path src).

(** The candidates before the first one that cannot be read. *)
Fixpoint readable_prefix (l : list (string * file)) : list (string * file) :=
  match l with
  | [] => []
  | x :: r => if f_readable (snd x) then x :: readable_prefix r else []
  end.

(** The archive member a candidate becomes. *)
Definition member_of (source_path : string) (x : string * file) : string * string :=
  (relpath (fst x) source_path, f_data (snd x)).


(** The name of the directory the copy mode creates. *)
Definition copy_backup_name (source : path) (timestamp : string) : string :=
  path_name source ++ "_" ++ timestamp.



End Backup.

(* ================================================================== *)
(** ** [clean_directory] *)
(* ================================================================== *)

Module Clean.
Import PathText FS.
Local Open Scope monad_scope.

(** [a < b] on the rationals *)
Definition Qltb (a b : Q) : bool := negb (Qle_bool b a).

(** [(current_time - file_path.stat().st_mtime) / (60*60*24)] *)
Definition file_age_days (current_time : Q) (f : file) : Q :=
  ((current_time - f_mtime f) / inject_Z (60 * 60 * 24))%Q.

(** The age test of the selection loop: the file stays in the selection
    unless [older_than] is given and [file_age_days < older_than]. *)
Definition old_enough (older_than : option Z) (current_time : Q) (f : file) : bool :=
  match older_than with
  | None => true
  | Some days => negb (Qltb (file_age_days current_time f) (inject_Z days))
  end.

(** The loop that fills [files_to_delete] from the paths the pattern
    selects below the directory [dir]. *)
Fixpoint select_files (dir : node) (older_than : option Z) (current_time : Q)
    (matches : list (list string)) : list (list string) :=
  match matches with
  | [] => []
  | file_path :: rest =>
      match tree_get file_path dir with
      | Some (File f) =>
          if old_enough older_than current_time f
          then file_path :: select_files dir older_than current_time rest
          else select_files dir older_than current_time rest
      | _ => select_files dir older_than current_time rest
      end
  end.

(** [file_path.stat().st_size] *)
Definition stat_size (dir : node) (file_path : list string) : result Z :=
  match tree_get file_path dir with
  | Some (File f) => Ok (f_size f)
  | Some (Dir _) => Ok 0%Z   (* not reached: only regular files are selected *)
  | None => Raise FileNotFoundError
  end.

(** [sum(file_path.stat().st_size for file_path in files_to_delete)] *)
Fixpoint sum_sizes (dir : node) (files : list (list string)) : result Z :=
  match files with
  | [] => Ok 0%Z
  | p :: rest =>
      match stat_size dir p with
      | Ok sz =>
          match sum_sizes dir rest with
          | Ok total => Ok (sz + total)%Z
          | Raise e => Raise e
          end
      | Raise e => Raise e
      end
  end.

(** The removal loop of the live run: a removal that fails is logged and
    the loop goes on. *)
Definition remove_all (files : list (list string)) : M node unit :=
  for_each files
    (fun file_path => try_except (os_remove file_path) (fun _ => ret tt)).

(** The tree after one turn of the removal loop: the file at [p] is
    removed if it is a regular file that can be removed. *)
Definition after_remove (p : list string) (n : node) : node :=
  match tree_get p n with
  | Some (File f) => if f_removable f then tree_del p n else n
  | _ => n
  end.




Section WithGlob.
  (** [Path.glob]: the paths, relative to the directory, that a pattern
      selects in the listing of the directory. *)
Variable glob : entries -> string -> result (list (list string)).

  (** The [try] block of [clean_directory]; the state is the file system
      and [current_time] is what [time.time()] returns. *)
Definition clean_body (directory : path) (pattern : string)
      (older_than : option Z) (dry_run : bool) (current_time : Q)
    : M node (nat * Z) :=
    fun fs =>
      match tree_get directory fs with
      | Some (Dir es) =>
          match glob es pattern with
          | Raise e => (Raise e, fs)
          | Ok matches =>
              let files_to_delete :=
                select_files (Dir es) older_than current_time matches in
              match sum_sizes (Dir es) files_to_delete with
              | Raise e => (Raise e, fs)
              | Ok total_size =>
                  if dry_run then (Ok (List.length files_to_delete, total_size), fs)
                  else
                    let '(_, dir') := remove_all files_to_delete (Dir es) in
                    (Ok (List.length files_to_delete, total_size),
                     tree_set directory dir' fs)
              end
          end
      | _ => (Raise FileNotFoundError, fs)
      end.

  (** [clean_directory]: [(0, 0)] when the body raised. *)
Definition clean_directory (directory : path) (pattern : string)
      (older_than : option Z) (dry_run : bool) (current_time : Q)
    : M node (nat * Z) :=
    try_except (clean_body directory pattern older_than dry_run current_time)
               (fun _ => ret (O, 0%Z)).
End WithGlob.

End Clean.

(* ================================================================== *)
(** ** [organize_files] *)
(* ================================================================== *)

Module Organize.
Import PathText FS.
Local Open Scope monad_scope.

(** The rule table: extension to destination folder, the folder as the
    parts of its path below the directory that is organised. *)
Definition rule_table := list (string * list string).

Definition default_rules : rule_table :=
  [ ("pdf", ["Documents"; "PDFs"]);
    ("doc", ["Documents"; "Word"]); ("docx", ["Documents"; "Word"]);
    ("xls", ["Documents"; "Excel"]); ("xlsx", ["Documents"; "Excel"]);
    ("ppt", ["Documents"; "PowerPoint"]); ("pptx", ["Documents"; "PowerPoint"]);
    ("txt", ["Documents"; "Text"]);
    ("jpg", ["Images"]); ("jpeg", ["Images"]);
    ("png", ["Images"]);
    ("gif", ["Images"]);
    ("bmp", ["Images"]);
    ("mp3", ["Media"; "Audio"]);
    ("wav", ["Media"; "Audio"]);
    ("mp4", ["Media"; "Video"]);
    ("avi", ["Media"; "Video"]);
    ("mkv", ["Media"; "Video"]);
    ("zip", ["Files"; "Compressed"]);
    ("rar", ["Files"; "Compressed"]);
    ("tar", ["Files"; "Compressed"]);
    ("gz", ["Files"; "Compressed"]);
    ("exe", ["Installers"]);
    ("msi", ["Installers"]);
    ("dmg", ["Installers"]);
    ("py", ["Code"; "Python"]);
    ("js", ["Code"; "JavaScript"]);
    ("html", ["Code"; "Web"]);
    ("css", ["Code"; "Web"]);
    ("java", ["Code"; "Java"]);
    ("c", ["Code"; "C"]);
    ("cpp", ["Code"; "C++"]) ].

(** [rules[extension]], [None] when [extension not in rules] *)
Fixpoint rule_for (extension : string) (rules : rule_table) : option (list string) :=
  match rules with
  | [] => None
  | (ext, folder) :: rest =>
      if ext =? extension then Some folder else rule_for extension rest
  end.

(** [if not rules: rules = {...}]: [None] and the empty table are falsy. *)
Definition effective_rules (rules : option rule_table) : rule_table :=
  match rules with
  | Some ((_ :: _) as r) => r
  | _ => default_rules
  end.

(** [file_path.suffix.lower().lstrip('.')] *)
Definition extension_of (name : string) : string :=
  lstrip_dot (lower (suffix name)).

(** [f"{base_name}_{timestamp}{extension}"] *)
Definition stamped_name (name timestamp : string) : string :=
  stem name ++ "_" ++ timestamp ++ suffix name.

(** One turn of the loop over the directory [n], for the entry [name] of
    its listing; [now name] is what [datetime.now().strftime] returns
    in that turn.  The result tells whether a file was moved. *)
Definition organize_one (rules : rule_table) (now : string -> string)
    (name : string) : M node bool :=
  fun n =>
    if is_file_at [name] n then
      match rule_for (extension_of name) rules with
      | Some dest_folder =>
          match makedirs dest_folder n with
          | Raise e => (Raise e, n)
          | Ok n1 =>
              let dest_path : list string :=
                if exists_at (dest_folder ++ [name]) n1
                then (dest_folder ++ [stamped_name name (now name)])%list
                else (dest_folder ++ [name])%list in
              match shutil_move name dest_path n1 with
              | (Ok _, n2) => (Ok true, n2)
              | (Raise e, n2) => (Raise e, n2)
              end
          end
      | None => (Ok false, n)
      end
    else (Ok false, n).

(** The loop, with [organized_count]. *)
Fixpoint organize_loop (rules : rule_table) (now : string -> string)
    (names : list string) (organized_count : nat) : M node nat :=
  match names with
  | [] => ret organized_count
  | name :: rest =>
      moved <- organize_one rules now name ;;
      organize_loop rules now rest
        (if moved : bool then S organized_count else organized_count)
  end.

(** [dir_path.glob('*')]: the names of the listing, taken once, before
    the loop. *)
Definition glob_star (es : entries) : list string :=
  filter (fun name => Fnmatch.fnmatch name "*") (map fst es).

(** The [try] block of [organize_files]; the state is the file system. *)
Definition organize_body (directory : path) (rules : option rule_table)
    (now : string -> string) : M node nat :=
  fun fs =>
    match tree_get directory fs with
    | Some (Dir es) =>
        let '(r, dir') :=
          organize_loop (effective_rules rules) now (glob_star es) O (Dir es) in
        (r, tree_set directory dir' fs)
    | _ => (Raise FileNotFoundError, fs)
    end.

(** [organize_files]: [0] when the body raised. *)
Definition organize_files (directory : path) (rules : option rule_table)
    (now : string -> string) : M node nat :=
  try_except (organize_body directory rules now) (fun _ => ret O).


(** A rule table whose folders are real sub-folders: each is a path of
    one name or more, every name one a listing can hold. *)
Definition proper_rules (rules : rule_table) : bool :=
  forallb (fun r => match snd r with
                    | [] => false
                    | folder => forallb valid_name folder
                    end) rules.


(** A regular file of the listing whose extension has a rule: what a turn
    of the loop moves. *)
Definition ruled_file (rules : rule_table) (es : entries) (name : string) : bool :=
  match child name es with
  | Some (File _) =>
      match rule_for (extension_of name) rules with
      | Some _ => true
      | None => false
      end
  | _ => false
  end.

End Organize.



(* ================================================================== *)
(** ** [main]: the menu *)
(* ================================================================== *)

(** [main] is read as the dialogue it holds: the lines it prints, the
    prompts it writes, the lines it reads from standard input and the
    operations it calls with the arguments it has built.  An operation
    returns to the menu whatever it does, since each one catches
    [Exception] itself. *)

Module Menu.
Import PathText.

(** [c.isspace()] on ASCII text *)
Definition is_space (c : ascii) : bool :=
  let n := nat_of_ascii c in
  ((9 <=? n)%nat && (n <=? 13)%nat) || ((28 <=? n)%nat && (n <=? 32)%nat).

(** [s.lstrip()] *)
Fixpoint lstrip (s : string) : string :=
  match s with
  | EmptyString => EmptyString
  | String c r => if is_space c then lstrip r else s
  end.

(** [s.rstrip()] *)
Fixpoint rstrip (s : string) : string :=
  match s with
  | EmptyString => EmptyString
  | String c r =>
      match rstrip r with
      | EmptyString => if is_space c then EmptyString else String c EmptyString
      | r' => String c r'
      end
  end.

(** [s.strip()] *)
Definition strip (s : string) : string := lstrip (rstrip s).

(** [s.split(',')] *)
Fixpoint split_comma (s : string) : list string :=
  match s with
  | EmptyString => [""]
  | String c r =>
      if Ascii.eqb c ","%char then "" :: split_comma r
      else match split_comma r with
           | [] => [String c ""]
           | h :: t => String c h :: t
           end
  end.

Definition is_digit (c : ascii) : bool :=
  let n := nat_of_ascii c in (48 <=? n)%nat && (n <=? 57)%nat.

Definition digit_value (c : ascii) : Z := Z.of_nat (nat_of_ascii c - 48).

(** The scan of the digits of a decimal literal: digits, with single
    underscores between them.  It gives the value and the number of
    digits. *)
Fixpoint scan_digits (acc : Z) (count : nat) (after_digit : bool) (s : string)
  : option (Z * nat) :=
  match s with
  | EmptyString => if after_digit then Some (acc, count) else None
  | String c r =>
      if is_digit c then scan_digits (10 * acc + digit_value c) (S count) true r
      else if Ascii.eqb c "_"%char then
        if after_digit then scan_digits acc count false r else None
      else None
  end.

(** CPython's default limit on the digits of a decimal literal it converts. *)
Definition max_str_digits : nat := 4300.

(** [int(s)] on ASCII text; [None] stands for [ValueError]. *)
Definition int_of_string (s : string) : option Z :=
  let t := strip s in
  let '(negative, body) :=
    match t with
    | String "+" r => (false, r)
    | String "-" r => (true, r)
    | _ => (false, t)
    end in
  match scan_digits 0 0 false body with
  | Some (v, count) =>
      if (max_str_digits <? count)%nat then None
      else Some (if negative then (- v)%Z else v)
  | None => None
  end.

(** [s * n] *)
Fixpoint times (s : string) (n : nat) : string :=
  match n with
  | O => ""
  | S n' => s ++ times s n'
  end.

(** A call of one of the three operations, with its arguments. *)
Inductive call : Type :=
| backup_directory_call (source dest : string) (zip_file : option string)
    (exclude : option (list string))
| clean_directory_call (directory pattern : string) (older_than : option Z)
    (dry_run : bool)
| organize_files_call (directory : string).

(** What [main] does, as seen from outside. *)
Inductive event : Type :=
| Printed (line : string)
| Asked (prompt : string)
| Called (c : call).

(** Standard input, as the lines still to be read, and what has happened
    so far. *)
Record io : Type := mkIO { stdin : list string; trace : list event }.

(** [EOFError], and the exceptions of [exn]. *)
Inductive signal : Type :=
| EOFError
| Exn (e : exn).

(** How a piece of [main] ends; [Running] is a loop that has not ended
    within the rounds it was given. *)
Inductive outcome (A : Type) : Type :=
| Returned (a : A)
| Raised (e : signal)
| Running.
Arguments Returned {A} a.
Arguments Raised {A} e.
Arguments Running {A}.

Definition IO (A : Type) : Type := io -> outcome A * io.

Definition io_ret {A} (a : A) : IO A := fun s => (Returned a, s).

Definition io_bind {A B} (c : IO A) (k : A -> IO B) : IO B :=
  fun s =>
    match c s with
    | (Returned a, s') => k a s'
    | (Raised e, s') => (Raised e, s')
    | (Running, s') => (Running, s')
    end.

Definition io_raise {A} (e : signal) : IO A := fun s => (Raised e, s).

Declare Scope io_scope.
Delimit Scope io_scope with io.
Notation "x <- c ;; k" := (io_bind c (fun x => k))
  (at level 61, c at next level, right associativity) : io_scope.
Notation "c ;;; k" := (io_bind c (fun _ => k))
  (at level 61, right associativity) : io_scope.
Local Open Scope io_scope.

Definition emit (e : event) : IO unit :=
  fun s => (Returned tt, mkIO (stdin s) (trace s ++ [e])).

(** [print(line)] *)
Definition print (line : string) : IO unit := emit (Printed line).

(** [input(prompt)]: the prompt is written, then a line is read; at the end
    of the input [EOFError] is raised. *)
Definition input (prompt : string) : IO string :=
  emit (Asked prompt) ;;;
  fun s =>
    match stdin s with
    | [] => (Raised EOFError, s)
    | line :: rest => (Returned line, mkIO rest (trace s))
    end.

(** A call of an operation. *)
Definition perform (c : call) : IO unit := emit (Called c).

(** [[p.strip() for p in exclude_input.split(',')] if exclude_input else None] *)
Definition exclude_of (exclude_input : string) : option (list string) :=
  if exclude_input =? "" then None
  else Some (map strip (split_comma exclude_input)).

(** [answer.strip().lower() == 'y'] *)
Definition is_yes (answer : string) : bool := lower (strip answer) =? "y".

(** One round of the [while True] loop; [true] when the loop goes on. *)
Definition menu_round : IO bool :=
  print (String "010" (times "=" 60)) ;;;
  print " TASK AUTOMATION UTILITY " ;;;
  print (times "=" 60) ;;;
  print "1) Backup directory" ;;;
  print "2) Clean directory" ;;;
  print "3) Organize files by type" ;;;
  print "0) Exit" ;;;
  line <- input "Enter option number: " ;;
  let choice := strip line in
  if choice =? "1" then
    line <- input "Enter source directory: " ;;
    let source := strip line in
    line <- input "Enter destination directory: " ;;
    let dest := strip line in
    line <- input "Create zip backup? (y/n): " ;;
    let zip_choice := is_yes line in
    zip_file <- (if zip_choice then
                   line <- input "Enter zip filename (without .zip): " ;;
                   io_ret (Some (strip line))
                 else io_ret None) ;;
    line <- input "Exclude patterns (comma-separated, e.g., *.tmp) or leave blank: " ;;
    let exclude_input := strip line in
    let exclude := exclude_of exclude_input in
    perform (backup_directory_call source dest zip_file exclude) ;;;
    io_ret true
  else if choice =? "2" then
    line <- input "Enter directory to clean: " ;;
    let directory := strip line in
    line <- input "Enter file pattern to remove [default '*']: " ;;
    let pattern := if strip line =? "" then "*" else strip line in
    line <- input "Remove files older than days (number) or leave blank: " ;;
    let older_input := strip line in
    older_than <- (if older_input =? "" then io_ret None
                   else match int_of_string older_input with
                        | Some n => io_ret (Some n)
                        | None => io_raise (Exn ValueError)
                        end) ;;
    line <- input "Dry run? (y/n): " ;;
    let dry_run := is_yes line in
    perform (clean_directory_call directory pattern older_than dry_run) ;;;
    io_ret true
  else if choice =? "3" then
    line <- input "Enter directory to organize: " ;;
    let directory := strip line in
    perform (organize_files_call directory) ;;;
    io_ret true
  else if choice =? "0" then
    print "Exiting." ;;;
    io_ret false
  else
    print "Invalid choice. Please select a valid option." ;;;
    io_ret true.

(** [while True: ...], for at most [rounds] rounds. *)
Fixpoint main_loop (rounds : nat) : IO unit :=
  match rounds with
  | O => fun s => (Running, s)
  | S n =>
      again <- menu_round ;;
      if again then main_loop n else io_ret tt
  end.

(** [main()] on the lines of standard input.  A round that does not end
    [main] reads a line, so one round more than there are lines is
    enough. *)
Definition main (lines : list string) : outcome unit * io :=
  main_loop (S (length lines)) (mkIO lines []).

(** The lines of the menu, as [main] prints them at the start of a round. *)
Definition menu : list event :=
  [Printed (String "010" (times "=" 60));
   Printed " TASK AUTOMATION UTILITY ";
   Printed (times "=" 60);
   Printed "1) Backup directory";
   Printed "2) Clean directory";
   Printed "3) Organize files by type";
   Printed "0) Exit"].

(** A run that comes after the events [t]. *)
Definition after {A} (t : list event) (r : outcome A * io) : outcome A * io :=
  (fst r, mkIO (stdin (snd r)) (t ++ trace (snd r))).

(** The calls of a trace, in order. *)
Fixpoint calls (t : list event) : list call :=
  match t with
  | [] => []
  | Called c :: t' => c :: calls t'
  | _ :: t' => calls t'
  end.

(** [',' in s] *)
Fixpoint has_comma (s : string) : bool :=
  match s with
  | EmptyString => false
  | String c r => Ascii.eqb c ","%char || has_comma r
  end.

(** A text without white space at either end. *)
Definition stripped (s : string) : bool := strip s =? s.

(** An argument that is a stripped text, without a comma. *)
Definition pattern_text (s : string) : bool := stripped s && negb (has_comma s).

(** The arguments of a call are stripped texts; the pattern of
    [clean_directory] is not empty; a list of exclusion patterns is not
    empty and its patterns hold no comma. *)
Definition well_formed (c : call) : bool :=
  match c with
  | backup_directory_call source dest zip_file exclude =>
      stripped source && stripped dest &&
      match zip_file with Some z => stripped z | None => true end &&
      match exclude with
      | Some [] => false
      | Some ps => forallb pattern_text ps
      | None => true
      end
  | clean_directory_call directory pattern _ _ =>
      stripped directory && stripped pattern && negb (pattern =? "")
  | organize_files_call directory => stripped directory
  end.


(** The last event of a trace. *)
Definition last_event (t : list event) : option event :=
  match t with
  | [] => None
  | e :: t' => Some (last t' e)
  end.

(** A text that does not begin with white space. *)
Definition no_space_first (s : string) : bool :=
  match s with
  | EmptyString => true
  | String c _ => negb (is_space c)
  end.

(** A text that does not end with white space. *)
Fixpoint no_space_last (s : string) : bool :=
  match s with
  | EmptyString => true
  | String c EmptyString => negb (is_space c)
  | String _ r => no_space_last r
  end.

(** The ways a run of [main] can end: by the choice 0, by [EOFError] when
    the input has run out at a prompt, or by [ValueError] at the prompt for
    the age. *)
Definition ended (r : outcome unit * io) : Prop :=
  (fst r = Returned tt /\
   last_event (trace (snd r)) = Some (Printed "Exiting.")) \/
  (fst r = Raised EOFError /\ stdin (snd r) = [] /\
   exists prompt, last_event (trace (snd r)) = Some (Asked prompt)) \/
  (fst r = Raised (Exn ValueError) /\
   last_event (trace (snd r)) =
     Some (Asked "Remove files older than days (number) or leave blank: ")).

End Menu.


(* ================================================================== *)
(** ** Sample trees *)
(* ================================================================== *)

Module Samples.
Import PathText FS.

Definition plain_file (data : string) : file := mkFile data 0 true true.

(** The tree [{a.txt, b.log, sub/c.txt}]. *)
Definition project (fa fb fc : file) : node :=
  Dir [("a.txt", File fa); ("b.log", File fb); ("sub", Dir [("c.txt", File fc)])].

(** A file system that holds [proj] at [/home/user/project]. *)
Definition disk_of (proj : node) : node :=
  Dir [("home", Dir [("user", Dir [("project", proj)])])].

Definition disk : node :=
  disk_of (project (plain_file "alpha") (plain_file "beta") (plain_file "gamma")).



Definition project_path : path := ["home"; "user"; "project"].
Definition backups_path : path := ["backups"].


(** A log directory at [/var/logs], seen at time [now]: [old.log] was
    modified exactly [days] days before [now], [young.log] one second
    later, and [notes.txt] is not a log. *)
Definition logs_disk (now : Q) (days : Z) : node :=
  Dir [("var",
        Dir [("logs",
              Dir [("old.log",
                    File (mkFile "0123456789" (now - inject_Z days * inject_Z 86400)%Q true true));
                   ("young.log",
                    File (mkFile "01234" (now - inject_Z days * inject_Z 86400 + 1)%Q true true));
                   ("notes.txt", File (plain_file "n"))])])].

Definition logs_path : path := ["var"; "logs"].


(** A download directory at [/home/user/inbox] that holds [report.pdf]. *)
Definition inbox (report : string) : node :=
  Dir [("report.pdf", File (plain_file report)); ("notes", File (plain_file "n"))].

Definition inbox_disk (report : string) : node :=
  Dir [("home", Dir [("user", Dir [("inbox", inbox report)])])].

Definition inbox_path : path := ["home"; "user"; "inbox"].

(** The clock of a run that takes place within one second. *)
Definition at_second (timestamp : string) : string -> string := fun _ => timestamp.



(** An inbox where the timestamped name of the arriving [report.pdf] is
    taken, at the second [20260101_000000], by a directory that holds a
    [report.pdf] of its own. *)
Definition blocked_inbox : node :=
  Dir [("report.pdf", File (plain_file "second"));
       ("Documents",
        Dir [("PDFs",
              Dir [("report.pdf", File (plain_file "first"));
                   ("report_20260101_000000.pdf",
                    Dir [("report.pdf", File (plain_file "kept"))])])])].


(** An inbox with files of several kinds, one of them with an upper-case
    extension, and a hidden file. *)
Definition mixed_entries : entries :=
  [("report.pdf", File (plain_file "r")); ("PHOTO.JPG", File (plain_file "p"));
   ("notes", File (plain_file "n")); (".profile", File (plain_file "h"));
   ("old", Dir [("song.mp3", File (plain_file "s"))])].

Definition mixed_inbox : node := Dir mixed_entries.

Definition mixed_disk : node :=
  Dir [("home", Dir [("user", Dir [("inbox", mixed_inbox)])])].

End Samples.

(* ================================================================== *)
(** * Properties *)
(* ================================================================== *)

(** ** Facts about path text *)

Module PathFacts.
Import PathText.
Local Open Scope string_scope.

Lemma valid_name_inv (s : string) :
  valid_name s = true ->
  s <> "" /\ s <> "." /\ s <> ".." /\ has_sep s = false.
Proof.
  unfold valid_name. rewrite !andb_true_iff, !negb_true_iff, !String.eqb_neq.
  tauto.
Qed.

Lemma has_sep_app (a b : string) :
  has_sep (a ++ b) = has_sep a || has_sep b.
Proof.
  induction a as [|c a IH]; simpl; [reflexivity|].
  rewrite IH. now rewrite orb_assoc.
Qed.

Lemma split_sep_nonempty (s : string) : split_sep s <> [].
Proof.
  induction s as [|c r IH]; simpl; [discriminate|].
  destruct (Ascii.eqb c sep); [discriminate|].
  destruct (split_sep r); [contradiction | discriminate].
Qed.

Lemma split_sep_nosep (s : string) : has_sep s = false -> split_sep s = [s].
Proof.
  induction s as [|c r IH]; simpl; intros H; [reflexivity|].
  apply orb_false_iff in H as [Hc Hr]. rewrite Hc, (IH Hr). reflexivity.
Qed.

Lemma split_sep_app (a b : string) :
  has_sep a = false -> split_sep (a ++ String sep b) = a :: split_sep b.
Proof.
  induction a as [|c r IH]; simpl; intros H.
  - reflexivity.
  - apply orb_false_iff in H as [Hc Hr]. rewrite Hc, (IH Hr). reflexivity.
Qed.

Lemma concat_cons2 (x y : string) (l : list string) :
  String.concat "/" (x :: y :: l) = x ++ String sep (String.concat "/" (y :: l)).
Proof. reflexivity. Qed.

Lemma append_assoc (a b c : string) : (a ++ b) ++ c = a ++ (b ++ c).
Proof. induction a as [|x a IH]; simpl; [reflexivity | now rewrite IH]. Qed.

Lemma append_nil_r (a : string) : a ++ "" = a.
Proof. induction a as [|x a IH]; simpl; [reflexivity | now rewrite IH]. Qed.

Lemma concat_snoc (l : list string) (d : string) :
  l <> [] -> String.concat "/" (l ++ [d])%list = String.concat "/" l ++ String sep d.
Proof.
  induction l as [|x l IH]; intros Hne; [contradiction|].
  destruct l as [|y l].
  - reflexivity.
  - cbn [app]. rewrite (concat_cons2 x y (l ++ [d])%list).
    change (y :: (l ++ [d]))%list with ((y :: l) ++ [d])%list.
    rewrite IH by discriminate. rewrite concat_cons2.
    now rewrite append_assoc.
Qed.

Lemma split_concat (q : list string) :
  valid_names q -> q <> [] -> split_sep (String.concat "/" q) = q.
Proof.
  induction q as [|x q IH]; intros Hv Hne; [contradiction|].
  inversion Hv as [|? ? Hx Hq]; subst.
  apply valid_name_inv in Hx as (_ & _ & _ & Hx).
  destruct q as [|y q].
  - simpl. now apply split_sep_nosep.
  - rewrite concat_cons2, split_sep_app by assumption.
    f_equal. apply IH; [assumption | discriminate].
Qed.

Lemma norm_comps_valid (q acc : list string) :
  valid_names q -> norm_comps acc q = (rev acc ++ q)%list.
Proof.
  revert acc. induction q as [|x q IH]; intros acc Hv; simpl.
  - now rewrite app_nil_r.
  - inversion Hv as [|? ? Hx Hq]; subst.
    apply valid_name_inv in Hx as (H1 & H2 & H3 & _).
    apply String.eqb_neq in H1, H2, H3. rewrite H1, H2, H3. simpl.
    rewrite IH by assumption. simpl. now rewrite <- app_assoc.
Qed.

(** The parts of a rendered path are the path. *)
Lemma abs_parts_path_str (q : path) :
  valid_names q -> abs_parts (path_str q) = q.
Proof.
  intros Hv. unfold abs_parts, path_str. simpl.
  destruct q as [|x q].
  - reflexivity.
  - rewrite split_concat; [|assumption|discriminate].
    now rewrite norm_comps_valid.
Qed.

Lemma endswith_nosep (s : string) : has_sep s = false -> endswith s "/" = false.
Proof.
  induction s as [|c r IH]; simpl; intros H; [reflexivity|].
  apply orb_false_iff in H as [Hc Hr]. rewrite (IH Hr), orb_false_r.
  destruct r; [|destruct c as [[] [] [] [] [] [] [] []]; reflexivity].
  unfold sep in Hc. simpl. now rewrite Hc.
Qed.

Lemma endswith_app_nosep (x y : string) :
  y <> "" -> has_sep y = false -> endswith (x ++ y) "/" = false.
Proof.
  intros Hne Hy. induction x as [|c x IH]; simpl.
  - now apply endswith_nosep.
  - rewrite IH, orb_false_r.
    destruct (x ++ y) eqn:E.
    + destruct x; simpl in E; [contradiction | discriminate].
    + destruct c as [[] [] [] [] [] [] [] []]; reflexivity.
Qed.

Lemma startswith_sep_nosep (s : string) :
  has_sep s = false -> startswith s "/" = false.
Proof.
  destruct s as [|c r]; simpl; intros H; [reflexivity|].
  apply orb_false_iff in H as [Hc _]. unfold sep in Hc. now rewrite Hc.
Qed.

Lemma startswith_sep_app (a b : string) :
  a <> "" -> startswith (a ++ b) "/" = startswith a "/".
Proof.
  destruct a as [|c r]; [contradiction|]. intros _. reflexivity.
Qed.

Lemma concat_valid_nonempty (l : list string) :
  valid_names l -> l <> [] -> String.concat "/" l <> "".
Proof.
  intros Hv Hne. destruct l as [|x l]; [contradiction|].
  inversion Hv as [|? ? Hx _]; subst.
  apply valid_name_inv in Hx as (Hx & _).
  destruct l; simpl; [assumption|].
  destruct x; [contradiction | discriminate].
Qed.

Lemma endswith_concat_valid (pre : string) (l : list string) :
  valid_names l -> l <> [] -> endswith (pre ++ String.concat "/" l) "/" = false.
Proof.
  revert pre. induction l as [|x l IH]; intros pre Hv Hne; [contradiction|].
  inversion Hv as [|? ? Hx Hl]; subst.
  apply valid_name_inv in Hx as (Hx & _ & _ & Hs).
  destruct l as [|y l].
  - simpl. now apply endswith_app_nosep.
  - rewrite concat_cons2.
    change (String sep (String.concat "/" (y :: l)))
      with ("/" ++ String.concat "/" (y :: l)).
    rewrite <- !append_assoc. apply IH; [assumption | discriminate].
Qed.

(** Joining a name to a rendered path renders the longer path. *)
Lemma join_path_str (p : path) (d : string) :
  valid_names p -> valid_name d = true ->
  os_path_join (path_str p) d = path_str (p ++ [d])%list.
Proof.
  intros Hp Hd. apply valid_name_inv in Hd as (Hd & _ & _ & Hs).
  unfold os_path_join. rewrite (startswith_sep_nosep _ Hs).
  destruct p as [|x p].
  - reflexivity.
  - unfold path_str.
    rewrite (endswith_concat_valid "/" (x :: p)) by (assumption || discriminate).
    simpl orb. cbv iota.
    rewrite concat_snoc by discriminate.
    change (String sep d) with ("/" ++ d). now rewrite append_assoc.
Qed.

Lemma commonprefix_app (a b : list string) : commonprefix a (a ++ b)%list = a.
Proof.
  induction a as [|x a IH]; simpl.
  - now destruct b.
  - now rewrite String.eqb_refl, IH.
Qed.

Lemma join_all_concat (l : list string) :
  valid_names l -> l <> [] -> os_path_join_all l = String.concat "/" l.
Proof.
  intros Hv Hne. destruct l as [|x l]; [contradiction|]. simpl os_path_join_all.
  assert (G : forall ps pre, valid_names pre -> pre <> [] -> valid_names ps ->
    fold_left os_path_join ps (String.concat "/" pre) = String.concat "/" (pre ++ ps)%list).
  { induction ps as [|d ps IH]; intros pre Hpre Hpne Hps; simpl.
    - now rewrite app_nil_r.
    - inversion Hps as [|? ? Hd Hps']; subst.
      assert (E : os_path_join (String.concat "/" pre) d = String.concat "/" (pre ++ [d])%list).
      { pose proof Hd as Hd'. apply valid_name_inv in Hd' as (_ & _ & _ & Hs).
        unfold os_path_join. rewrite (startswith_sep_nosep _ Hs).
        pose proof (concat_valid_nonempty pre Hpre Hpne) as Hc.
        apply String.eqb_neq in Hc. rewrite Hc.
        pose proof (endswith_concat_valid "" pre Hpre Hpne) as He. simpl in He.
        rewrite He. simpl. rewrite concat_snoc by assumption. reflexivity. }
      rewrite E, IH.
      + now rewrite <- app_assoc.
      + apply Forall_app; split; [assumption | now constructor].
      + now destruct pre.
      + assumption. }
  inversion Hv as [|? ? Hx Hl]; subst.
  apply (G l [x]); [now constructor | discriminate | assumption].
Qed.

(** The archive name of a file below the source root is the text of its
    path relative to the root. *)
Lemma relpath_below (src rel : path) :
  valid_names src -> valid_names rel -> rel <> [] ->
  relpath (path_str (src ++ rel)%list) (path_str src) = String.concat "/" rel.
Proof.
  intros Hs Hr Hne. unfold relpath.
  rewrite !abs_parts_path_str by (try apply Forall_app; auto).
  rewrite commonprefix_app, Nat.sub_diag. simpl repeat. simpl app.
  rewrite skipn_app, skipn_all, Nat.sub_diag. simpl.
  destruct rel as [|x rel]; [contradiction|].
  apply (join_all_concat (x :: rel)); [assumption | discriminate].
Qed.

Lemma concat_app (a b : list string) :
  a <> [] -> b <> [] ->
  String.concat "/" (a ++ b)%list = String.concat "/" a ++ String sep (String.concat "/" b).
Proof.
  intros Ha Hb. induction a as [|x a IH]; [contradiction|].
  destruct a as [|y a].
  - destruct b as [|z b]; [contradiction | reflexivity].
  - cbn [app]. rewrite (concat_cons2 x y (a ++ b)%list).
    change (y :: (a ++ b))%list with ((y :: a) ++ b)%list.
    rewrite IH by discriminate. rewrite concat_cons2. now rewrite append_assoc.
Qed.

(** Joining relative path text to a rendered path renders the longer
    path. *)
Lemma join_path_str_concat (p rel : path) :
  valid_names p -> valid_names rel -> rel <> [] ->
  os_path_join (path_str p) (String.concat "/" rel) = path_str (p ++ rel)%list.
Proof.
  intros Hp Hr Hne. unfold os_path_join.
  assert (Hst : startswith (String.concat "/" rel) "/" = false).
  { destruct rel as [|x rel]; [contradiction|].
    inversion Hr as [|? ? Hx _]; subst.
    apply valid_name_inv in Hx as (Hx & _ & _ & Hs).
    destruct rel as [|y rel]; [now apply startswith_sep_nosep|].
    rewrite concat_cons2, startswith_sep_app by assumption.
    now apply startswith_sep_nosep. }
  rewrite Hst. destruct p as [|x p].
  - reflexivity.
  - unfold path_str.
    rewrite (endswith_concat_valid "/" (x :: p)) by (assumption || discriminate).
    simpl orb. cbv iota.
    rewrite concat_app by (assumption || discriminate).
    change (String sep (String.concat "/" rel)) with ("/" ++ String.concat "/" rel).
    now rewrite append_assoc.
Qed.

Lemma concat_valid_inj (a b : list string) :
  valid_names a -> valid_names b -> a <> [] -> b <> [] ->
  String.concat "/" a = String.concat "/" b -> a = b.
Proof.
  intros Ha Hb Hna Hnb E.
  rewrite <- (split_concat a Ha Hna), <- (split_concat b Hb Hnb). now rewrite E.
Qed.

Lemma valid_names_no_dotdot (l : list string) : valid_names l -> ~ In ".." l.
Proof.
  intros Hv Hin. unfold valid_names in Hv. rewrite Forall_forall in Hv. specialize (Hv _ Hin).
  now apply valid_name_inv in Hv as (_ & _ & H & _).
Qed.

Lemma startswith_concat_valid (rel : list string) :
  valid_names rel -> startswith (String.concat "/" rel) "/" = false.
Proof.
  intros Hr. destruct rel as [|x rel]; [reflexivity|].
  inversion Hr as [|? ? Hx _]; subst.
  apply valid_name_inv in Hx as (Hx & _ & _ & Hs).
  destruct rel as [|y rel]; [now apply startswith_sep_nosep|].
  rewrite concat_cons2, startswith_sep_app by assumption.
  now apply startswith_sep_nosep.
Qed.

End PathFacts.


(** ** Facts about the file system and the walk *)

Module FSFacts.
Import PathText PathFacts FS.

Lemma wf_dir_inv (es : entries) :
  wf_node (Dir es) = true ->
  forall name c, In (name, c) es -> valid_name name = true /\ wf_node c = true.
Proof.
  simpl. induction es as [|[n0 c0] es IH]; intros H name c Hin; [contradiction|].
  apply andb_true_iff in H as [H Hrest]. apply andb_true_iff in H as [Hn Hc].
  destruct Hin as [E|Hin]; [injection E as <- <-; auto | eauto].
Qed.

Lemma at_path_wf (rel : list string) (n m : node) :
  at_path rel n m -> wf_node n = true -> valid_names rel /\ wf_node m = true.
Proof.
  induction 1 as [n | es name c rel m Hin Hat IH]; intros Hwf.
  - split; [constructor | assumption].
  - destruct (wf_dir_inv es Hwf name c Hin) as [Hn Hc].
    destruct (IH Hc) as [Hrel Hm]. split; [now constructor | assumption].
Qed.

Lemma at_path_snoc (rel : list string) (n : node) (es : entries) (name : string) (c : node) :
  at_path rel n (Dir es) -> In (name, c) es -> at_path (rel ++ [name]) n c.
Proof.
  intros Hat Hin. remember (Dir es) as m eqn:Em.
  induction Hat as [n | es' name' c' rel m Hin' Hat IH]; subst.
  - simpl. econstructor; [eassumption | constructor].
  - simpl. econstructor; [eassumption | now apply IH].
Qed.

Lemma files_of_in (es : entries) (name : string) (f : file) :
  In (name, f) (files_of es) <-> In (name, File f) es.
Proof.
  induction es as [|[n0 [f0|es0]] es IH]; simpl.
  - tauto.
  - rewrite IH. split; (intros [E|H]; [left; congruence | now right]).
  - rewrite IH. split; [now right | intros [E|H]; [discriminate | assumption]].
Qed.

(** The walk of a directory, with the visit of its entries unfolded. *)
Lemma os_walk_dir (keep : string -> string -> bool) (top : string) (es : entries) :
  os_walk keep top (Dir es) =
  (top, filter (keep top) (dir_names es), files_of es) ::
  flat_map
    (fun e => if is_dir (snd e) && keep top (fst e)
              then os_walk keep (os_path_join top (fst e)) (snd e)
              else [])
    es.
Proof.
  simpl. f_equal.
  induction es as [|[d c] es IH]; simpl; [reflexivity|].
  rewrite IH. now destruct (is_dir c && keep top d).
Qed.

(** What the walk yields: the directories reached through kept
    directories only, each with its regular files. *)
Lemma os_walk_inv (keep : string -> string -> bool) (n : node) :
  forall (p : path) root dirs files,
    valid_names p -> wf_node n = true ->
    In (root, dirs, files) (os_walk keep (path_str p) n) ->
    exists rel es,
      root = path_str (p ++ rel) /\ at_path rel n (Dir es) /\
      files = files_of es /\ kept_chain keep p rel.
Proof.
  induction n as [f|es IH] using node_ind'; intros p root dirs files Hp Hwf Hin.
  - contradiction.
  - rewrite os_walk_dir in Hin. destruct Hin as [E|Hin].
    + injection E as <- _ <-. exists [], es. rewrite app_nil_r.
      repeat split; try constructor.
      intros anc d rest E. now destruct anc.
    + apply in_flat_map in Hin as ([d c] & Hdc & Hin). simpl in Hin.
      destruct (is_dir c && keep (path_str p) d) eqn:Hk; [|contradiction].
      apply andb_true_iff in Hk as [_ Hk].
      destruct (wf_dir_inv es Hwf d c Hdc) as [Hd Hc].
      rewrite join_path_str in Hin by assumption.
      rewrite Forall_forall in IH. specialize (IH (d, c) Hdc). simpl in IH.
      destruct (IH (p ++ [d])%list root dirs files) as (rel & es' & -> & Hat & -> & Hch);
        [apply Forall_app; split; [assumption | now constructor] | assumption | assumption |].
      exists (d :: rel), es'. rewrite <- app_assoc. simpl.
      repeat split; [econstructor; eassumption|].
      intros anc d' rest E. destruct anc as [|a anc]; simpl in E.
      * injection E as <- _. now rewrite app_nil_r.
      * injection E as <- E. specialize (Hch anc d' rest E).
        now rewrite <- app_assoc in Hch.
Qed.

End FSFacts.


(** ** Facts about loops in the monad *)

Section ForEach.
Context {S A B : Type}.

Lemma for_each_app (l1 l2 : list A) (body : A -> M S unit) (st : S) :
    for_each (l1 ++ l2) body st = bind (for_each l1 body) (fun _ => for_each l2 body) st.
  Proof.
    revert st. induction l1 as [|x l1 IH]; intros st; simpl.
    - reflexivity.
    - unfold bind. destruct (body x st) as [[[]|e] st']; [apply IH | reflexivity].
  Qed.

Lemma for_each_ext (l : list A) (b1 b2 : A -> M S unit) :
    (forall x st, b1 x st = b2 x st) ->
    forall st, for_each l b1 st = for_each l b2 st.
  Proof.
    intros E. induction l as [|x l IH]; intros st; simpl; [reflexivity|].
    unfold bind. rewrite E. destruct (b2 x st) as [[[]|e] st']; [apply IH | reflexivity].
  Qed.

Lemma for_each_map (h : B -> A) (l : list B) (body : A -> M S unit) (st : S) :
    for_each (map h l) body st = for_each l (fun x => body (h x)) st.
  Proof.
    revert st. induction l as [|x l IH]; intros st; simpl; [reflexivity|].
    unfold bind. destruct (body (h x) st) as [[[]|e] st']; [apply IH | reflexivity].
  Qed.

Lemma for_each_flat_map (g : B -> list A) (l : list B) (body : A -> M S unit) (st : S) :
    for_each (flat_map g l) body st = for_each l (fun b => for_each (g b) body) st.
  Proof.
    revert st. induction l as [|x l IH]; intros st; simpl; [reflexivity|].
    rewrite for_each_app. unfold bind.
    destruct (for_each (g x) body st) as [[[]|e] st']; [apply IH | reflexivity].
  Qed.
End ForEach.

(** ** Facts about the archive loop *)

Module BackupFacts.
Import PathText PathFacts FS FSFacts Backup.

Lemma archive_loop_visited pats sp src st :
  archive_loop pats sp src st =
  for_each (visited_files pats sp src) (write_one pats sp) st.
Proof.
  unfold archive_loop, visited_files. rewrite for_each_flat_map.
  apply for_each_ext. intros [[root dirs] files] st'.
  rewrite for_each_map. apply for_each_ext. intros [file f] st''. reflexivity.
Qed.

Lemma for_each_write_one pats sp (l : list (string * file)) (m : list (string * string)) (c : nat) :
  let cands := filter (fun x => negb (excluded pats (fst x))) l in
  for_each l (write_one pats sp) (m, c) =
  (if forallb (fun x => f_readable (snd x)) cands then Ok tt else Raise PermissionError,
   ((m ++ map (member_of sp) (readable_prefix cands))%list,
    c + List.length (readable_prefix cands))).
Proof.
  cbv zeta. revert m c. induction l as [|[fp f] l IH]; intros m c.
  - simpl. now rewrite app_nil_r, Nat.add_0_r.
  - cbn [for_each filter fst]. unfold bind, write_one at 1. cbn [fst snd].
    destruct (excluded pats fp) eqn:Ex; cbn [negb].
    + unfold ret. apply IH.
    + unfold bind, zipf_write, incr_file_count. cbn [fst snd].
      cbn [forallb readable_prefix snd].
      destruct (f_readable f) eqn:Er; cbn [andb].
      * rewrite IH. f_equal. f_equal.
        -- cbn [map fst]. now rewrite <- app_assoc.
        -- cbn [List.length snd]. lia.
      * cbn [map List.length]. now rewrite app_nil_r, Nat.add_0_r.
Qed.

(** The archive loop writes the candidates in order, up to the first one
    it cannot read, where it raises. *)
Lemma archive_loop_spec pats sp src (m : list (string * string)) (c : nat) :
  archive_loop pats sp src (m, c) =
  (if forallb (fun x => f_readable (snd x)) (candidates pats sp src)
   then Ok tt else Raise PermissionError,
   ((m ++ map (member_of sp) (readable_prefix (candidates pats sp src)))%list,
    c + List.length (readable_prefix (candidates pats sp src)))).
Proof.
  rewrite archive_loop_visited. apply for_each_write_one.
Qed.

Lemma readable_prefix_incl (l : list (string * file)) x :
  In x (readable_prefix l) -> In x l.
Proof.
  induction l as [|y l IH]; simpl; [tauto|].
  destruct (f_readable (snd y)); simpl; [|tauto]. intros [E|H]; auto.
Qed.

(** A visited file lies in the tree, below directories that were all
    kept. *)
Lemma visited_files_inv pats (source : path) (src : node) fp f :
  valid_names source -> wf_node src = true ->
  In (fp, f) (visited_files pats (path_str source) src) ->
  exists rel,
    fp = path_str (source ++ rel) /\ at_path rel src (File f) /\
    valid_names rel /\ rel <> [] /\
    forall anc d rest, rel = (anc ++ d :: rest)%list -> rest <> [] ->
      excluded pats (path_str (source ++ anc ++ [d])) = false.
Proof.
  intros Hs Hwf Hin. unfold visited_files in Hin.
  apply in_flat_map in Hin as ([[root dirs] files] & Hw & Hin).
  apply in_map_iff in Hin as ([file f'] & E & Hin). injection E as <- <-.
  destruct (os_walk_inv _ src source root dirs files Hs Hwf Hw)
    as (rel & es & -> & Hat & -> & Hch).
  apply files_of_in in Hin.
  pose proof (at_path_snoc rel src es file (File f') Hat Hin) as Hat'.
  destruct (at_path_wf _ _ _ Hat' Hwf) as [Hv _].
  destruct (at_path_wf _ _ _ Hat Hwf) as [Hvrel Hwfd].
  destruct (wf_dir_inv es Hwfd file _ Hin) as [Hfile _].
  exists (rel ++ [file])%list. repeat split.
  - rewrite join_path_str; [now rewrite app_assoc | | assumption].
    apply Forall_app; split; assumption.
  - assumption.
  - assumption.
  - now destruct rel.
  - intros anc d rest E Hrest.
    assert (exists rest', rel = (anc ++ d :: rest')%list) as [rest' ->].
    { destruct (exists_last Hrest) as (rest' & z & ->).
      exists rest'. change (anc ++ d :: rest' ++ [z])%list with (anc ++ (d :: rest') ++ [z])%list in E.
      rewrite app_assoc in E. now apply app_inj_tail in E as [E _]. }
    specialize (Hch anc d rest' eq_refl). unfold keep_dir in Hch.
    apply negb_true_iff in Hch.
    assert (Hanc : valid_names anc /\ valid_name d = true).
    { apply Forall_app in Hvrel as [Ha Hd]. inversion Hd; subst. auto. }
    rewrite join_path_str in Hch; [| apply Forall_app; tauto | tauto].
    now rewrite <- app_assoc in Hch.
Qed.

End BackupFacts.


(** ** The zip mode of [backup_directory], as a whole *)

Module BackupRun.
Import PathText PathFacts FS FSFacts Backup BackupFacts.

Lemma dest_get_set (name : string) (a : artifact) (d : dest_dir) :
  dest_get name (dest_set name a d) = Some a.
Proof.
  induction d as [|[n a'] d IH]; simpl.
  - now rewrite String.eqb_refl.
  - destruct (n =? name) eqn:E; simpl; now rewrite E.
Qed.

Lemma zip_members_spec pats (source : path) (src : node) :
  zip_members pats source src =
  map (member_of (path_str source))
      (readable_prefix (candidates pats (path_str source) src)).
Proof.
  unfold zip_members. now rewrite archive_loop_spec.
Qed.

(** What a run of the zip mode returns and leaves, for a source that
    exists. *)
Lemma backup_zip_run fs (source dest : path) zf pats ts (d : dest_dir) (src : node) :
  tree_get source fs = Some src -> zf <> "" ->
  backup_directory fs source dest (Some zf) pats ts d =
  match dest_get (zip_backup_name source ts zf) d with
  | Some (CopiedTree _) => (Ok None, d)
  | _ =>
      (Ok (if forallb (fun x => f_readable (snd x)) (candidates pats (path_str source) src)
           then Some (path_str (dest ++ [zip_backup_name source ts zf]))
           else None),
       dest_set (zip_backup_name source ts zf)
                (ZipArchive (zip_members pats source src)) d)
  end.
Proof.
  intros Hsrc Hzf. destruct zf as [|c zf]; [contradiction|].
  unfold backup_directory, try_except, bind, backup_body. rewrite Hsrc.
  fold (zip_backup_name source ts (String c zf)).
  rewrite zip_members_spec.
  destruct (dest_get (zip_backup_name source ts (String c zf)) d) as [[ms|es]|];
    try reflexivity;
    rewrite archive_loop_spec; simpl;
    destruct (forallb _ _); reflexivity.
Qed.

(** A member of the archive comes from a file of the source tree that no
    pattern excludes and that lies below kept directories only; its name
    is the text of the file's path relative to the source. *)
Lemma zip_member_origin pats (source : path) (src : node) arcname data :
  valid_names source -> wf_node src = true ->
  In (arcname, data) (zip_members pats source src) ->
  exists rel f,
    arcname = String.concat "/" rel /\ data = f_data f /\
    at_path rel src (File f) /\ valid_names rel /\ rel <> [] /\
    excluded pats (path_str (source ++ rel)) = false /\
    forall anc d rest, rel = (anc ++ d :: rest)%list -> rest <> [] ->
      excluded pats (path_str (source ++ anc ++ [d])) = false.
Proof.
  intros Hs Hwf Hin. rewrite zip_members_spec in Hin.
  apply in_map_iff in Hin as ([fp f] & E & Hin). injection E as <- <-.
  apply readable_prefix_incl in Hin. unfold candidates in Hin.
  apply filter_In in Hin as [Hin Hex]. simpl in Hex. apply negb_true_iff in Hex.
  destruct (visited_files_inv pats source src fp f Hs Hwf Hin)
    as (rel & -> & Hat & Hv & Hne & Hch).
  exists rel, f. simpl. rewrite relpath_below by assumption. auto 10.
Qed.

End BackupRun.



(** ** Facts about patterns *)

Module FnmatchFacts.
Import PathText PathFacts Fnmatch.
Local Open Scope string_scope.

Lemma translate_fuel_plain (lit : string) (fuel : nat) :
  plain lit = true -> (String.length lit <= fuel)%nat ->
  translate_fuel fuel (list_ascii_of_string lit) = map TLit (list_ascii_of_string lit).
Proof.
  revert fuel. induction lit as [|c r IH]; intros fuel Hp Hf.
  - now destruct fuel.
  - simpl in Hp, Hf. destruct fuel as [|fuel]; [lia|].
    apply andb_true_iff in Hp as [Hc Hr]. unfold plain_char in Hc.
    rewrite !andb_true_iff, !negb_true_iff in Hc. destruct Hc as [[H1 H2] H3].
    simpl. rewrite H1, H2, H3. f_equal. apply IH; [assumption | lia].
Qed.

Lemma match_toks_lits (lit s : string) :
  match_toks (map TLit (list_ascii_of_string lit)) s = (s =? lit).
Proof.
  revert s. induction lit as [|c r IH]; intros s; simpl.
  - now destruct s.
  - destruct s as [|c' s]; [reflexivity|]. simpl. rewrite IH.
    rewrite Ascii.eqb_sym. now destruct (Ascii.eqb c' c).
Qed.

Lemma match_toks_star (ts : list tok) (s : string) :
  match_toks (TStar :: ts) s =
  match_toks ts s ||
  match s with
  | EmptyString => false
  | String _ r => match_toks (TStar :: ts) r
  end.
Proof. now destruct s. Qed.

Lemma endswith_unfold (s suf : string) :
  endswith s suf =
  (s =? suf) ||
  match s with
  | EmptyString => false
  | String _ r => endswith r suf
  end.
Proof. now destruct s. Qed.

(** A star followed by plain text matches the names that end with the
    text. *)
Lemma fnmatch_star_plain (lit s : string) :
  plain lit = true -> fnmatch s (String "*"%char lit) = endswith s lit.
Proof.
  intros Hp. unfold fnmatch, translate.
  cbn [String.length list_ascii_of_string translate_fuel]. simpl Ascii.eqb. cbv iota.
  rewrite translate_fuel_plain by (assumption || lia).
  induction s as [|c s IH]; rewrite match_toks_star, endswith_unfold, match_toks_lits.
  - reflexivity.
  - now rewrite IH.
Qed.

Lemma fnmatch_star (s : string) : fnmatch s "*" = true.
Proof.
  rewrite (fnmatch_star_plain "" s eq_refl).
  induction s as [|c s IH]; simpl; [reflexivity | now rewrite IH].
Qed.

(** Plain text as a pattern matches itself only. *)
Lemma fnmatch_plain (lit s : string) :
  plain lit = true -> fnmatch s lit = (s =? lit).
Proof.
  intros Hp. unfold fnmatch, translate.
  rewrite translate_fuel_plain by (assumption || lia). apply match_toks_lits.
Qed.



End FnmatchFacts.

(** The pattern language on a few names. *)
Example fnmatch_examples :
  Fnmatch.fnmatch "/home/u/src/b.log" "*.log" = true /\
  Fnmatch.fnmatch "/home/u/src/a.txt" "*.log" = false /\
  Fnmatch.fnmatch "/home/u/src/sub" "sub" = false /\
  Fnmatch.fnmatch "sub" "sub" = true /\
  Fnmatch.fnmatch "a1" "[a-c][!0]" = true /\
  Fnmatch.fnmatch "a0" "[a-c][!0]" = false /\
  Fnmatch.fnmatch "x[y" "x[?" = true.
Proof. repeat split; reflexivity. Qed.


Section ScenarioFacts.
Import PathText PathFacts FS FSFacts Backup BackupFacts BackupRun Fnmatch FnmatchFacts Samples.

Lemma path_str_snoc_sep (p : path) (d : string) :
  exists pre, path_str (p ++ [d])%list = (pre ++ String sep d)%string.
Proof.
  unfold path_str. destruct p as [|x p].
  - now exists ""%string.
  - rewrite concat_snoc by discriminate.
    exists ("/" ++ String.concat "/" (x :: p))%string.
    now rewrite !append_assoc.
Qed.



End ScenarioFacts.


(** ** Facts about the selection of [clean_directory] *)

Module CleanFacts.
Import PathText FS Clean.

Lemma sum_sizes_select (dir : node) (older_than : option Z) (now : Q)
    (matches : list (list string)) :
  exists total, sum_sizes dir (select_files dir older_than now matches) = Ok total.
Proof.
  induction matches as [|p ms [total IH]]; simpl.
  - now exists 0%Z.
  - destruct (tree_get p dir) as [[f|es]|] eqn:E; try (now exists total).
    destruct (old_enough older_than now f); [|now exists total].
    simpl. unfold stat_size. rewrite E, IH. now eexists.
Qed.

(** What a run of the body returns and leaves, for a directory that
    exists and a pattern that [glob] accepts. *)
Lemma clean_body_run (glob : entries -> string -> result (list (list string)))
    (fs : node) (directory : path) (es : entries) (pattern : string)
    (matches : list (list string)) (older_than : option Z) (dry_run : bool) (now : Q) :
  tree_get directory fs = Some (Dir es) ->
  glob es pattern = Ok matches ->
  let files_to_delete := select_files (Dir es) older_than now matches in
  exists total_size,
    sum_sizes (Dir es) files_to_delete = Ok total_size /\
    clean_body glob directory pattern older_than dry_run now fs =
    (Ok (List.length files_to_delete, total_size),
     if dry_run then fs
     else tree_set directory (snd (remove_all files_to_delete (Dir es))) fs).
Proof.
  intros Hdir Hglob files_to_delete. subst files_to_delete.
  destruct (sum_sizes_select (Dir es) older_than now matches) as [total Hsum].
  exists total. split; [exact Hsum|].
  unfold clean_body. rewrite Hdir, Hglob. cbv zeta. rewrite Hsum.
  destruct dry_run; [reflexivity|].
  now destruct (remove_all (select_files (Dir es) older_than now matches) (Dir es)).
Qed.




End CleanFacts.


(** ** Facts about changes of the tree *)

Module TreeFacts.
Import PathText FS.

Lemma child_set_same (name : string) (c : node) (es : entries) :
  child name (set_child name c es) = Some c.
Proof.
  induction es as [|[n c0] es IH]; simpl.
  - now rewrite String.eqb_refl.
  - destruct (n =? name) eqn:E; simpl; now rewrite E.
Qed.

Lemma child_set_other (name x : string) (c : node) (es : entries) :
  x <> name -> child x (set_child name c es) = child x es.
Proof.
  intros Hx. induction es as [|[n c0] es IH]; simpl.
  - apply String.eqb_neq in Hx. now rewrite String.eqb_sym, Hx.
  - destruct (n =? name) eqn:E; simpl.
    + apply String.eqb_eq in E. subst n.
      apply not_eq_sym in Hx. apply String.eqb_neq in Hx. now rewrite !Hx.
    + now rewrite IH.
Qed.


Lemma child_del_same (name : string) (es : entries) :
  child name (del_child name es) = None.
Proof.
  induction es as [|[n c0] es IH]; simpl; [reflexivity|].
  destruct (n =? name) eqn:E; simpl; [assumption | now rewrite E].
Qed.

Lemma child_del_other (name x : string) (es : entries) :
  x <> name -> child x (del_child name es) = child x es.
Proof.
  intros Hx. induction es as [|[n c0] es IH]; simpl; [reflexivity|].
  destruct (n =? name) eqn:E; simpl.
  - apply String.eqb_eq in E. subst n.
    apply not_eq_sym in Hx. apply String.eqb_neq in Hx. now rewrite Hx.
  - now rewrite IH.
Qed.

Lemma child_in (name : string) (c : node) (es : entries) :
  child name es = Some c -> In name (map fst es).
Proof.
  induction es as [|[n c0] es IH]; simpl; [discriminate|].
  destruct (String.eqb_spec n name); [now left | right; auto].
Qed.

Lemma tree_get_app (p q : list string) (n : node) :
  tree_get (p ++ q) n =
  match tree_get p n with
  | Some m => tree_get q m
  | None => None
  end.
Proof.
  revert n. induction p as [|s p IH]; intros n; simpl; [reflexivity|].
  destruct n as [f|es]; [reflexivity|].
  destruct (child s es); [apply IH | reflexivity].
Qed.

(** Putting a node where one already is. *)
Lemma tree_get_set_same (p : list string) (new m n : node) :
  tree_get p n = Some m -> tree_get p (tree_set p new n) = Some new.
Proof.
  revert n. induction p as [|s p IH]; intros n; simpl; [reflexivity|].
  destruct n as [f|es]; [discriminate|].
  destruct (child s es) as [c|] eqn:E; [|discriminate].
  intros H. simpl. rewrite child_set_same. now apply IH.
Qed.

Lemma tree_set_twice (p : list string) (new1 new2 m n : node) :
  tree_get p n = Some m ->
  tree_set p new2 (tree_set p new1 n) = tree_set p new2 n.
Proof.
  revert n. induction p as [|s p IH]; intros n; simpl; [reflexivity|].
  destruct n as [f|es]; [discriminate|].
  destruct (child s es) as [c|] eqn:E; [|discriminate].
  intros H. simpl. rewrite child_set_same. rewrite (IH c H). f_equal.
  clear. induction es as [|[n c0] es IH']; simpl.
  - now rewrite String.eqb_refl.
  - destruct (n =? s) eqn:E; simpl; rewrite E; [reflexivity | now rewrite IH'].
Qed.


(** Adding or replacing the entry [x] of the directory at [p]. *)
Lemma tree_set_snoc (p : list string) (x : string) (new : node) (des : entries) (n : node) :
  tree_get p n = Some (Dir des) ->
  tree_set (p ++ [x]) new n = tree_set p (Dir (set_child x new des)) n.
Proof.
  revert n. induction p as [|s p IH]; intros n; simpl.
  - intros [= ->]. now destruct (child x des).
  - destruct n as [f|es]; [discriminate|].
    destruct (child s es) as [c|] eqn:E; [|discriminate].
    intros H. now rewrite (IH c H).
Qed.

Lemma tree_get_set_below (p q : list string) (new m n : node) :
  tree_get p n = Some m ->
  tree_get (p ++ q) (tree_set p new n) = tree_get q new.
Proof.
  intros H. rewrite tree_get_app, (tree_get_set_same p new m n H). reflexivity.
Qed.

(** A change below the entry [s] of the top listing leaves the other
    entries of the top listing alone. *)
Lemma tree_get_set_other_top (s x : string) (ps q : list string) (new : node) (es : entries) :
  x <> s ->
  tree_get (x :: q) (tree_set (s :: ps) new (Dir es)) = tree_get (x :: q) (Dir es).
Proof.
  intros Hx. simpl. destruct (child s es) as [c|].
  - simpl. now rewrite child_set_other.
  - destruct ps; simpl; [now rewrite child_set_other | reflexivity].
Qed.

Lemma tree_get_del_other_top (name x : string) (q : list string) (es : entries) :
  x <> name ->
  tree_get (x :: q) (tree_del [name] (Dir es)) = tree_get (x :: q) (Dir es).
Proof.
  intros Hx. simpl. now rewrite child_del_other.
Qed.


Lemma makedirs_is_dir (p : list string) (n n1 : node) :
  makedirs p n = Ok n1 -> is_dir n1 = true.
Proof.
  destruct p as [|s p]; simpl; destruct n as [f|es]; try discriminate.
  - now intros [= <-].
  - destruct (makedirs p _); [now intros [= <-] | discriminate].
Qed.

(** What [makedirs] does to the top listing: the first part of the path
    names a directory afterwards, which it did before unless it was
    absent, and every other entry is as it was. *)
Lemma makedirs_top (s : string) (ps : list string) (es : entries) (n1 : node) :
  makedirs (s :: ps) (Dir es) = Ok n1 ->
  exists es1 c1,
    n1 = Dir es1 /\ child s es1 = Some c1 /\ is_dir c1 = true /\
    (forall f, child s es <> Some (File f)) /\
    (forall x, x <> s -> child x es1 = child x es).
Proof.
  simpl.
  destruct (makedirs ps (match child s es with Some c => c | None => Dir [] end))
    as [c1|e] eqn:E; [|discriminate].
  intros [= <-]. exists (set_child s c1 es), c1. repeat split.
  - apply child_set_same.
  - eapply makedirs_is_dir; eassumption.
  - intros f Hf. rewrite Hf in E. destruct ps; discriminate.
  - intros x Hx. now apply child_set_other.
Qed.

End TreeFacts.


(** ** Facts about the loop of [organize_files] *)

Module OrganizeFacts.
Import PathText FS TreeFacts Organize Fnmatch FnmatchFacts.

Lemma rule_for_proper (rules : rule_table) (ext : string) (folder : list string) :
  proper_rules rules = true -> rule_for ext rules = Some folder -> folder <> [].
Proof.
  induction rules as [|[e fo] rules IH]; simpl; [discriminate|].
  intros H. apply andb_true_iff in H as [Hfo Hrest].
  destruct (e =? ext).
  - intros [= <-]. now destruct fo.
  - now apply IH.
Qed.

Lemma default_rules_proper : proper_rules default_rules = true.
Proof. reflexivity. Qed.

Lemma glob_star_names (es : entries) : glob_star es = map fst es.
Proof.
  unfold glob_star. induction (map fst es) as [|x l IH]; simpl; [reflexivity|].
  now rewrite fnmatch_star, IH.
Qed.

Lemma tree_set_keeps_dir (q : list string) (new c : node) :
  q <> [] -> is_dir c = true -> is_dir (tree_set q new c) = true.
Proof.
  destruct q as [|s q]; [contradiction|]. intros _.
  destruct c as [f|es]; [discriminate|]. intros _. simpl.
  destruct (child s es); [reflexivity|]. now destruct q.
Qed.

(** A move of the file [name] of the top listing to a place below the
    directory [s] of the top listing: when it succeeds, [name] has left the
    top listing, the entry [s] is still a directory, and nothing else of
    the top listing changed; when it fails, nothing changed. *)
Lemma shutil_move_top (name s : string) (q : list string) (es1 : entries)
    (f : file) (c1 : node) (r : result unit) (n2 : node) :
  child name es1 = Some (File f) ->
  child s es1 = Some c1 -> is_dir c1 = true -> q <> [] ->
  shutil_move name (s :: q) (Dir es1) = (r, n2) ->
  match r with
  | Ok _ => exists c2, is_dir c2 = true /\ n2 = Dir (set_child s c2 (del_child name es1))
  | Raise _ => n2 = Dir es1
  end.
Proof.
  intros Hname Hs Hc1 Hq. unfold shutil_move.
  assert (Hns : s <> name).
  { intros ->. rewrite Hname in Hs. injection Hs as <-. discriminate. }
  assert (Hget : tree_get [name] (Dir es1) = Some (File f)) by (simpl; now rewrite Hname).
  rewrite Hget.
  assert (Hset : forall q', q' <> [] -> exists c2, is_dir c2 = true /\
            tree_set (s :: q') (File f) (tree_del [name] (Dir es1)) =
            Dir (set_child s c2 (del_child name es1))).
  { intros q' Hq'. simpl. rewrite child_del_other, Hs by assumption.
    eexists. split; [|reflexivity]. now apply tree_set_keeps_dir. }
  destruct (tree_get (s :: q) (Dir es1)) as [[g|des]|].
  - destruct (list_eq_dec string_dec (s :: q) [name]) as [E|_].
    + injection E as _ ->. contradiction.
    + destruct (tree_get (removelast (s :: q)) (Dir es1)) as [[g'|des']|];
        intros [= <- <-]; try reflexivity.
      now apply Hset.
  - destruct (exists_at ((s :: q) ++ [name]) (Dir es1)); intros [= <- <-]; [reflexivity|].
    apply (Hset (q ++ [name])%list). now destruct q.
  - destruct (list_eq_dec string_dec (s :: q) [name]) as [E|_].
    + injection E as _ ->. contradiction.
    + destruct (tree_get (removelast (s :: q)) (Dir es1)) as [[g'|des']|];
        intros [= <- <-]; try reflexivity.
      now apply Hset.
Qed.

(** One turn of the loop, seen from the top listing.  Regular files never
    appear in it; a turn that moves [name] takes it out; a turn that
    moves nothing changes nothing, and is one for an entry that is not a
    regular file or has no rule. *)
Lemma organize_one_top (rules : rule_table) (now : string -> string)
    (name : string) (es : entries) (r : result bool) (n2 : node) :
  proper_rules rules = true ->
  organize_one rules now name (Dir es) = (r, n2) ->
  exists es2,
    n2 = Dir es2 /\
    (forall x g, child x es2 = Some (File g) -> child x es = Some (File g)) /\
    (r = Ok true -> child name es2 = None) /\
    (r = Ok false ->
       es2 = es /\
       ((forall g, child name es <> Some (File g)) \/
        rule_for (extension_of name) rules = None)).
Proof.
  intros Hp. unfold organize_one, is_file_at. simpl tree_get.
  destruct (child name es) as [[f|des]|] eqn:Hname.
  2,3: intros [= <- <-]; exists es;
       (split; [reflexivity | split; [auto | split; [discriminate|]]]);
       intros _; split; [reflexivity | left; intros g; discriminate].
  destruct (rule_for (extension_of name) rules) as [folder|] eqn:Hrule.
  2: { intros [= <- <-]. exists es.
       split; [reflexivity | split; [auto | split; [discriminate|]]].
       intros _. split; [reflexivity | now right]. }
  pose proof (rule_for_proper rules _ folder Hp Hrule) as Hne.
  destruct folder as [|s ps]; [contradiction|].
  destruct (makedirs (s :: ps) (Dir es)) as [n1|e] eqn:Hmk.
  2: { intros [= <- <-]. exists es.
       split; [reflexivity | split; [auto | split; discriminate]]. }
  destruct (makedirs_top s ps es n1 Hmk) as (es1 & c1 & -> & Hs1 & Hc1 & Hnf & Hoth).
  assert (Hns : name <> s).
  { intros ->. now apply (Hnf f). }
  assert (Hname1 : child name es1 = Some (File f)) by (now rewrite Hoth).
  assert (Hfiles1 : forall x g, child x es1 = Some (File g) -> child x es = Some (File g)).
  { intros x g Hx. destruct (string_dec x s) as [->|Hxs].
    - rewrite Hs1 in Hx. injection Hx as ->. discriminate.
    - now rewrite <- Hoth. }
  set (dest_path := if exists_at ((s :: ps) ++ [name]) (Dir es1)
                    then ((s :: ps) ++ [stamped_name name (now name)])%list
                    else ((s :: ps) ++ [name])%list).
  assert (Hdp : exists q, q <> [] /\ dest_path = s :: q).
  { unfold dest_path. destruct (exists_at _ _); simpl; eexists; (split; [|reflexivity]);
      now destruct ps. }
  destruct Hdp as (q & Hq & ->).
  destruct (shutil_move name (s :: q) (Dir es1)) as [mr n3] eqn:Hmv.
  pose proof (shutil_move_top name s q es1 f c1 mr n3 Hname1 Hs1 Hc1 Hq Hmv) as Hres.
  destruct mr as [[]|e].
  - destruct Hres as (c2 & Hc2 & ->). intros [= <- <-].
    exists (set_child s c2 (del_child name es1)).
    split; [reflexivity | split; [|split; [|discriminate]]].
    + intros x g Hx. destruct (string_dec x s) as [->|Hxs].
      * rewrite child_set_same in Hx. injection Hx as ->. discriminate.
      * rewrite child_set_other in Hx by assumption.
        destruct (string_dec x name) as [->|Hxn].
        -- now rewrite child_del_same in Hx.
        -- rewrite child_del_other in Hx by assumption. auto.
    + intros _. rewrite child_set_other by assumption. apply child_del_same.
  - subst n3. intros [= <- <-]. exists es1.
    split; [reflexivity | split; [auto | split; discriminate]].
Qed.

(** A run of the loop that completes leaves no regular file with a rule
    among the names it went through, and adds no regular file to the top
    listing. *)
Lemma organize_loop_top (rules : rule_table) (now : string -> string)
    (names : list string) :
  proper_rules rules = true ->
  forall (c : nat) (es : entries) (c' : nat) (n' : node),
    organize_loop rules now names c (Dir es) = (Ok c', n') ->
    exists es',
      n' = Dir es' /\
      (forall x g, child x es' = Some (File g) -> child x es = Some (File g)) /\
      (forall x g, In x names -> child x es' = Some (File g) ->
         rule_for (extension_of x) rules = None).
Proof.
  intros Hp. induction names as [|name rest IH]; intros c es c' n'; simpl.
  - unfold ret. intros [= <- <-]. exists es.
    split; [reflexivity | split; [auto | intros x g []]].
  - unfold bind. destruct (organize_one rules now name (Dir es)) as [r n1] eqn:Hone.
    destruct (organize_one_top rules now name es r n1 Hp Hone)
      as (es1 & -> & Hfiles & Hmoved & Hstay).
    destruct r as [b|e]; [|discriminate]. intros Hloop.
    destruct (IH _ _ _ _ Hloop) as (es' & -> & Hfiles' & Hrest).
    exists es'. split; [reflexivity | split; [auto|]].
    intros x g [<-|Hin] Hx; [|eauto].
    apply Hfiles' in Hx. destruct b.
    + rewrite (Hmoved eq_refl) in Hx. discriminate.
    + destruct (Hstay eq_refl) as [-> [Hnf|Hnr]]; [|assumption].
      now destruct (Hnf g).
Qed.

(** Where no regular file of the top listing has a rule, the loop moves
    nothing. *)
Lemma organize_loop_idle (rules : rule_table) (now : string -> string)
    (es : entries) :
  (forall x g, child x es = Some (File g) -> rule_for (extension_of x) rules = None) ->
  forall (names : list string) (c : nat),
    organize_loop rules now names c (Dir es) = (Ok c, Dir es).
Proof.
  intros Hnone. induction names as [|name rest IH]; intros c; simpl; [reflexivity|].
  unfold bind, organize_one, is_file_at. simpl tree_get.
  destruct (child name es) as [[f|des]|] eqn:Hname; try apply IH.
  rewrite (Hnone name f Hname). apply IH.
Qed.

End OrganizeFacts.

Section SuffixPatterns.
Import PathText PathFacts FS Backup Fnmatch FnmatchFacts.

Lemma eqb_sep_mismatch (a b : string) :
  has_sep a = true -> has_sep b = false -> (a =? b)%string = false.
Proof.
  intros Ha Hb. apply String.eqb_neq. intros ->. congruence.
Qed.

Lemma endswith_past_sep (pre d lit : string) :
  has_sep lit = false ->
  endswith (pre ++ String sep d) lit = endswith d lit.
Proof.
  intros Hl.
  assert (Hsep : forall x, has_sep (x ++ String sep d) = true).
  { intros x. rewrite has_sep_app. simpl. unfold sep.
    now rewrite orb_true_r. }
  induction pre as [|c pre IH].
  - change ("" ++ String sep d)%string with (String sep d).
    rewrite endswith_unfold.
    rewrite (eqb_sep_mismatch (String sep d) lit (Hsep ""%string) Hl). reflexivity.
  - change (String c pre ++ String sep d)%string with (String c (pre ++ String sep d)).
    rewrite endswith_unfold, IH.
    pose proof (Hsep (String c pre)) as Hc.
    change (String c pre ++ String sep d)%string with (String c (pre ++ String sep d)) in Hc.
    rewrite (eqb_sep_mismatch _ lit Hc Hl). reflexivity.
Qed.

(** Where the two modes of [backup_directory] do agree: for a pattern made
    of a star and plain text without a separator, such as [*.tmp], the test
    of the zip mode on the joined path and the test of the copy mode on the
    bare name give the same answer. *)
Lemma suffix_pattern_tests_agree (lit : string) (p : path) (name : string) :
  plain lit = true -> has_sep lit = false ->
  excluded (Some [String "*"%char lit]) (path_str (p ++ [name])) =
  ignored [String "*"%char lit] name.
Proof.
  intros Hp Hs. unfold excluded, ignored, existsb.
  rewrite !(fnmatch_star_plain lit _ Hp).
  destruct (path_str_snoc_sep p name) as [pre ->].
  now rewrite endswith_past_sep.
Qed.

End SuffixPatterns.

(* ================================================================== *)
(** * The claims *)
(* ================================================================== *)

Section BackupClaims.
Import PathText PathFacts FS FSFacts Backup BackupFacts BackupRun.

(** C1.  Every entry of the archive that the zip mode of
    [backup_directory] writes has a path relative to the source root: the
    path is not absolute, none of its segments is [..], and extracted
    under any root it lands below that root.  The names of the source tree
    are names a directory listing can hold. *)
Theorem archive_entry_paths_stay_inside
    (fs : node) (source dest : path) (zf : string)
    (pats : option (list string)) (ts : string) (d : dest_dir)
    (src : node) (members : list (string * string)) (arcname data : string) :
  valid_names source ->
  tree_get source fs = Some src ->
  wf_node src = true ->
  zf <> "" ->
  dest_get (zip_backup_name source ts zf)
           (snd (backup_directory fs source dest (Some zf) pats ts d))
    = Some (ZipArchive members) ->
  In (arcname, data) members ->
  startswith arcname "/" = false /\
  ~ In ".." (split_sep arcname) /\
  forall root : path, valid_names root ->
    exists rest, extract_target root arcname = (root ++ rest)%list.
Proof.
  intros Hs Hsrc Hwf Hzf Hget Hin.
  rewrite (backup_zip_run fs source dest zf pats ts d src Hsrc Hzf) in Hget.
  assert (Hm : members = zip_members pats source src).
  { destruct (dest_get (zip_backup_name source ts zf) d) as [[ms|es]|] eqn:E;
      simpl in Hget; try (rewrite dest_get_set in Hget; congruence).
    rewrite E in Hget. discriminate. }
  subst members.
  destruct (zip_member_origin pats source src arcname data Hs Hwf Hin)
    as (rel & f & -> & _ & _ & Hv & Hne & _).
  split; [now apply startswith_concat_valid|]. split.
  - rewrite split_concat by assumption. now apply valid_names_no_dotdot.
  - intros root Hroot. exists rel. unfold extract_target.
    rewrite join_path_str_concat by assumption.
    apply abs_parts_path_str. apply Forall_app; split; assumption.
Qed.

End BackupClaims.

Section BackupExclusion.
Import PathText PathFacts FS FSFacts Backup BackupFacts BackupRun Samples.



(** A run of C1 on the sample disk. *)
Lemma archive_entry_paths_stay_inside_witness :
  startswith "sub/c.txt" "/" = false /\
  ~ In ".." (split_sep "sub/c.txt") /\
  forall root : path, valid_names root ->
    exists rest, extract_target root "sub/c.txt" = (root ++ rest)%list.
Proof.
  apply (archive_entry_paths_stay_inside disk project_path backups_path
           "nightly" (Some ["*.log"]) "20260101_000000" []
           (project (plain_file "alpha") (plain_file "beta") (plain_file "gamma"))
           [("a.txt", "alpha"); ("sub/c.txt", "gamma")] "sub/c.txt" "gamma").
  - repeat constructor.
  - reflexivity.
  - reflexivity.
  - discriminate.
  - reflexivity.
  - right. left. reflexivity.
Defined.

End BackupExclusion.

Section BackupFailure.
Import PathText PathFacts FS FSFacts Backup BackupFacts BackupRun Samples.






End BackupFailure.

Section CleanClaims.
Import PathText FS Clean CleanFacts Samples.
Variable glob : entries -> string -> result (list (list string)).


(** C4.  With [dry_run] set, [clean_directory] returns the pair of count and
    bytes that the live run returns on the same file system, and it leaves
    the file system as it was. *)
Theorem dry_run_reports_like_live_run
    (fs : node) (directory : path) (pattern : string) (older_than : option Z)
    (current_time : Q) :
  fst (clean_directory glob directory pattern older_than true current_time fs) =
  fst (clean_directory glob directory pattern older_than false current_time fs) /\
  snd (clean_directory glob directory pattern older_than true current_time fs) = fs.
Proof.
  unfold clean_directory, try_except, clean_body.
  destruct (tree_get directory fs) as [[f|es]|]; try (split; reflexivity).
  destruct (glob es pattern) as [matches|e]; [|split; reflexivity].
  destruct (sum_sizes (Dir es) (select_files (Dir es) older_than current_time matches))
    as [total|e]; [|split; reflexivity].
  destruct (remove_all (select_files (Dir es) older_than current_time matches) (Dir es)).
  split; reflexivity.
Qed.

End CleanClaims.

Section CleanWitness.
Import PathText FS Clean CleanFacts Samples.


End CleanWitness.

Section ErrorClaims.
Import PathText FS Backup Clean Organize Samples.

(** C8, as the code has it.  When the source of a backup or the directory
    to clean or to organise does not exist, the body of the operation
    raises [FileNotFoundError] before it changes anything; the operation
    catches it, so the caller is handed the failure value ([None],
    [(0, 0)], [0]) and the state is as it was. *)
Theorem missing_path_raises_inside
    (glob : entries -> string -> result (list (list string)))
    (fs : node) (p : path) :
  tree_get p fs = None ->
  (forall dest zip_file pats ts d,
     backup_body fs p dest zip_file pats ts d = (Raise FileNotFoundError, d) /\
     backup_directory fs p dest zip_file pats ts d = (Ok None, d)) /\
  (forall pattern older_than dry_run now,
     clean_body glob p pattern older_than dry_run now fs = (Raise FileNotFoundError, fs) /\
     clean_directory glob p pattern older_than dry_run now fs = (Ok (O, 0%Z), fs)) /\
  (forall rules now,
     organize_body p rules now fs = (Raise FileNotFoundError, fs) /\
     organize_files p rules now fs = (Ok O, fs)).
Proof.
  intros Hp. repeat split.
  - unfold backup_body. now rewrite Hp.
  - unfold backup_directory, try_except, bind, backup_body. now rewrite Hp.
  - unfold clean_body. now rewrite Hp.
  - unfold clean_directory, try_except, clean_body. now rewrite Hp.
  - unfold organize_body. now rewrite Hp.
  - unfold organize_files, try_except, organize_body. now rewrite Hp.
Qed.

(** A run of C8: nothing lies at [/home/nobody] on the sample disk. *)
Lemma missing_path_raises_inside_witness :
  backup_body disk ["home"; "nobody"] backups_path (Some "nightly") None
    "20260101_000000" [] = (Raise FileNotFoundError, []) /\
  backup_directory disk ["home"; "nobody"] backups_path (Some "nightly") None
    "20260101_000000" [] = (Ok None, []).
Proof.
  exact (proj1 (missing_path_raises_inside glob1 disk ["home"; "nobody"] eq_refl)
           backups_path (Some "nightly") None "20260101_000000" []).
Defined.

(** C8 fails as stated: for a source, or a directory, that does not exist
    the caller gets an ordinary return value, not [FileNotFoundError]. *)
Lemma missing_path_returns_normally :
  fst (backup_directory disk ["home"; "nobody"] backups_path (Some "nightly") None
         "20260101_000000" []) = Ok None /\
  fst (backup_directory disk ["home"; "nobody"] backups_path (Some "nightly") None
         "20260101_000000" []) <> Raise FileNotFoundError /\
  fst (clean_directory glob1 ["home"; "nobody"] "*" None false 1780000000%Q disk)
    = Ok (O, 0%Z) /\
  fst (organize_files ["home"; "nobody"] None (fun _ => "20260101_000000") disk)
    = Ok O.
Proof. repeat split; try reflexivity. discriminate. Qed.

(** C10.  The public operations hand every failure of their body to the
    caller as a return value: [backup_directory] returns the backup path
    when its body returns and [None] when it raises, [clean_directory]
    returns [(0, 0)] and [organize_files] returns [0] when their bodies
    raise; none of them ever raises, whatever the input. *)
Theorem operations_never_raise
    (glob : entries -> string -> result (list (list string))) :
  (forall fs source dest zip_file pats ts d,
     (exists v d', backup_directory fs source dest zip_file pats ts d = (Ok v, d')) /\
     (forall e d', backup_body fs source dest zip_file pats ts d = (Raise e, d') ->
        backup_directory fs source dest zip_file pats ts d = (Ok None, d')) /\
     (forall p d', backup_body fs source dest zip_file pats ts d = (Ok p, d') ->
        backup_directory fs source dest zip_file pats ts d = (Ok (Some p), d'))) /\
  (forall directory pattern older_than dry_run now fs,
     (exists v fs', clean_directory glob directory pattern older_than dry_run now fs
                    = (Ok v, fs')) /\
     (forall e fs', clean_body glob directory pattern older_than dry_run now fs
                    = (Raise e, fs') ->
        clean_directory glob directory pattern older_than dry_run now fs
        = (Ok (O, 0%Z), fs'))) /\
  (forall directory rules now fs,
     (exists v fs', organize_files directory rules now fs = (Ok v, fs')) /\
     (forall e fs', organize_body directory rules now fs = (Raise e, fs') ->
        organize_files directory rules now fs = (Ok O, fs'))).
Proof.
  split; [|split].
  - intros fs source dest zip_file pats ts d.
    unfold backup_directory, try_except, bind, ret.
    destruct (backup_body fs source dest zip_file pats ts d) as [[p|e] d0]; simpl.
    + split; [eauto | split; intros ? ? H; congruence].
    + split; [eauto | split; intros ? ? H; congruence].
  - intros directory pattern older_than dry_run now fs.
    unfold clean_directory, try_except, ret.
    destruct (clean_body glob directory pattern older_than dry_run now fs) as [[v|e] fs0];
      simpl; (split; [eauto | intros ? ? H; congruence]).
  - intros directory rules now fs.
    unfold organize_files, try_except, ret.
    destruct (organize_body directory rules now fs) as [[v|e] fs0];
      simpl; (split; [eauto | intros ? ? H; congruence]).
Qed.

(** A run of C10: the missing source of C8. *)
Lemma operations_never_raise_witness :
  backup_directory disk ["home"; "nobody"] backups_path (Some "nightly") None
    "20260101_000000" [] = (Ok None, []).
Proof.
  exact (proj1 (proj2 (proj1 (operations_never_raise glob1)
                         disk ["home"; "nobody"] backups_path (Some "nightly") None
                         "20260101_000000" []))
           FileNotFoundError [] eq_refl).
Defined.

End ErrorClaims.

Section ModesDisagree.
Import PathText FS Backup Samples.

(** C9 does not hold of the code.  On the sample project with the
    exclusion [["sub"]] the copy mode leaves the directory [sub] out, as
    [shutil.ignore_patterns] matches the bare name, while the zip mode,
    which matches the joined absolute path, archives [sub/c.txt]. *)
Lemma zip_and_copy_modes_disagree :
  backup_directory disk project_path backups_path (Some "nightly")
      (Some ["sub"]) "20260101_000000" []
  = (Ok (Some "/backups/project_20260101_000000_nightly.zip"),
     [("project_20260101_000000_nightly.zip",
       ZipArchive [("a.txt", "alpha"); ("b.log", "beta"); ("sub/c.txt", "gamma")])])
  /\
  backup_directory disk project_path backups_path None
      (Some ["sub"]) "20260101_000000" []
  = (Ok (Some "/backups/project_20260101_000000"),
     [("project_20260101_000000",
       CopiedTree [("a.txt", File (plain_file "alpha"));
                   ("b.log", File (plain_file "beta"))])])
  /\
  tree_files (Dir [("a.txt", File (plain_file "alpha"));
                   ("b.log", File (plain_file "beta"))])
  = [["a.txt"]; ["b.log"]].
Proof. repeat split; reflexivity. Qed.

End ModesDisagree.

Section OrganizeClaims.
Import PathText FS TreeFacts Organize OrganizeFacts Samples.

(** C7, as the code has it.  When the rule table sends every extension to
    a sub-folder of the directory and a run of [organize_files] has gone
    through the directory without raising, running it again moves
    nothing: every file with a rule has left for its destination
    sub-folder, and the loop only looks at the entries of the directory
    itself. *)
Theorem organize_twice_moves_nothing
    (fs fs1 : node) (directory : path) (rules : option rule_table)
    (now1 now2 : string -> string) (count1 : nat) :
  proper_rules (effective_rules rules) = true ->
  organize_body directory rules now1 fs = (Ok count1, fs1) ->
  organize_files directory rules now2 fs1 = (Ok O, fs1).
Proof.
  intros Hp Hrun. unfold organize_body in Hrun.
  destruct (tree_get directory fs) as [[f|es]|] eqn:Hdir; try discriminate.
  destruct (organize_loop (effective_rules rules) now1 (glob_star es) O (Dir es))
    as [r n1] eqn:Hloop.
  injection Hrun as -> <-.
  destruct (organize_loop_top _ now1 _ Hp _ _ _ _ Hloop) as (es1 & -> & Hfiles & Hnone).
  assert (Hidle : forall x g, child x es1 = Some (File g) ->
            rule_for (extension_of x) (effective_rules rules) = None).
  { intros x g Hx. apply (Hnone x g); [|assumption].
    rewrite glob_star_names. eapply child_in. eauto. }
  unfold organize_files, try_except, organize_body.
  rewrite (tree_get_set_same directory (Dir es1) (Dir es) fs Hdir).
  rewrite (organize_loop_idle _ now2 es1 Hidle).
  rewrite (tree_set_twice directory (Dir es1) (Dir es1) (Dir es) fs Hdir).
  reflexivity.
Qed.

(** A run of C7: [report.pdf] goes to [Documents/PDFs/report.pdf] under the
    default rules, and organising again moves nothing. *)
Lemma organize_twice_moves_nothing_witness :
  organize_body inbox_path None (at_second "20260101_000000") (inbox_disk "r")
  = (Ok 1,
     Dir [("home",
           Dir [("user",
                 Dir [("inbox",
                       Dir [("notes", File (plain_file "n"));
                            ("Documents",
                             Dir [("PDFs",
                                   Dir [("report.pdf", File (plain_file "r"))])])])])])])
  /\
  organize_files inbox_path None (at_second "20260101_000007")
    (snd (organize_body inbox_path None (at_second "20260101_000000") (inbox_disk "r")))
  = (Ok O,
     snd (organize_body inbox_path None (at_second "20260101_000000") (inbox_disk "r"))).
Proof.
  split; [reflexivity|].
  apply (organize_twice_moves_nothing (inbox_disk "r") _ inbox_path None
           (at_second "20260101_000000") (at_second "20260101_000007") 1).
  - reflexivity.
  - reflexivity.
Defined.




End OrganizeClaims.

Section OrganizeAgain.
Import PathText FS Organize Samples.

(** C7 fails as stated, in two ways.  With a rule whose destination is the
    directory itself, every run renames the file again and counts it as
    moved.  And after a run that raised, here on a timestamped name that
    is taken by a directory, the next run, a few seconds later, moves the
    file the first one left. *)
Lemma organize_again_moves_files :
  organize_files [] (Some [("pdf", [])]) (at_second "20260101_000000") (inbox "r")
  = (Ok 1,
     Dir [("notes", File (plain_file "n"));
          ("report_20260101_000000.pdf", File (plain_file "r"))])
  /\
  organize_files [] (Some [("pdf", [])]) (at_second "20260101_000007")
    (Dir [("notes", File (plain_file "n"));
          ("report_20260101_000000.pdf", File (plain_file "r"))])
  = (Ok 1,
     Dir [("notes", File (plain_file "n"));
          ("report_20260101_000000_20260101_000007.pdf", File (plain_file "r"))])
  /\
  organize_body [] None (at_second "20260101_000000") blocked_inbox
  = (Raise ShutilError, blocked_inbox)
  /\
  organize_files [] None (at_second "20260101_000000") blocked_inbox
  = (Ok O, blocked_inbox)
  /\
  fst (organize_files [] None (at_second "20260101_000007") blocked_inbox) = Ok 1.
Proof. repeat split; reflexivity. Qed.

End OrganizeAgain.


(* ================================================================== *)
(** * Further properties of the operations *)
(* ================================================================== *)

(** ** The zip mode: what the archive holds *)

Module ZipContent.
Import PathText PathFacts FS FSFacts Backup BackupFacts BackupRun.





End ZipContent.


Section ZipContentTheorems.
Import PathText PathFacts FS FSFacts Backup BackupFacts BackupRun ZipContent Samples.









End ZipContentTheorems.


(** ** The zip mode: no two members share a name *)

Module ZipNames.
Import PathText PathFacts FS FSFacts Backup BackupFacts BackupRun ZipContent.

Lemma distinct_NoDup (l : list string) : distinct l = true -> NoDup l.
Proof.
  induction l as [|x l IH]; simpl; [constructor|].
  intros H. apply andb_true_iff in H as [Hx Hl]. constructor; [|auto].
  intros Hin. apply negb_true_iff in Hx.
  assert (existsb (String.eqb x) l = true); [|congruence].
  apply existsb_exists. exists x. split; [assumption | apply String.eqb_refl].
Qed.

Lemma distinct_dir_inv (es : entries) :
  distinct_names (Dir es) = true ->
  NoDup (map fst es) /\
  forall name c, In (name, c) es -> distinct_names c = true.
Proof.
  simpl. intros H. apply andb_true_iff in H as [Hd Hall].
  split; [now apply distinct_NoDup|].
  clear Hd. induction es as [|[n0 c0] es IH]; intros name c Hin; [contradiction|].
  apply andb_true_iff in Hall as [Hc Hrest].
  destruct Hin as [E|Hin]; [injection E as <- <-; auto | eauto].
Qed.

Lemma path_str_inj (a b : path) :
  valid_names a -> valid_names b -> path_str a = path_str b -> a = b.
Proof.
  intros Ha Hb E. rewrite <- (abs_parts_path_str a Ha), <- (abs_parts_path_str b Hb).
  now rewrite E.
Qed.

Lemma NoDup_map_filter {A B : Type} (h : A -> B) (g : A -> bool) (l : list A) :
  NoDup (map h l) -> NoDup (map h (filter g l)).
Proof.
  induction l as [|x l IH]; simpl; [constructor|].
  intros H. inversion H as [|? ? Hx Hl]; subst.
  destruct (g x); simpl; [|auto]. constructor; [|auto].
  intros Hin. apply Hx. apply in_map_iff in Hin as (y & E & Hy).
  apply filter_In in Hy as [Hy _]. apply in_map_iff. eauto.
Qed.

Lemma NoDup_map_readable_prefix {B : Type} (h : string * file -> B)
    (l : list (string * file)) :
  NoDup (map h l) -> NoDup (map h (readable_prefix l)).
Proof.
  induction l as [|x l IH]; simpl; [constructor|].
  intros H. inversion H as [|? ? Hx Hl]; subst.
  destruct (f_readable (snd x)); simpl; [|constructor]. constructor; [|auto].
  intros Hin. apply Hx. apply in_map_iff in Hin as (y & E & Hy).
  apply readable_prefix_incl in Hy. apply in_map_iff. eauto.
Qed.

Lemma NoDup_map_inj_in {A B : Type} (h : A -> B) (l : list A) :
  (forall x y, In x l -> In y l -> h x = h y -> x = y) ->
  NoDup l -> NoDup (map h l).
Proof.
  induction l as [|x l IH]; simpl; intros Hinj H; [constructor|].
  inversion H as [|? ? Hx Hl]; subst. constructor.
  - intros Hin. apply in_map_iff in Hin as (y & E & Hy).
    assert (y = x) by (apply Hinj; auto). now subst.
  - apply IH; auto.
Qed.

Lemma NoDup_app_disjoint {A : Type} (l1 l2 : list A) :
  NoDup l1 -> NoDup l2 -> (forall x, In x l1 -> In x l2 -> False) -> NoDup (l1 ++ l2).
Proof.
  induction l1 as [|x l1 IH]; simpl; intros H1 H2 Hd; [assumption|].
  inversion H1 as [|? ? Hx Hl]; subst. constructor.
  - intros Hin. apply in_app_or in Hin as [Hin|Hin]; [auto | eapply Hd; eauto].
  - apply IH; eauto.
Qed.

(** The visited files of a directory: its own files, then the files
    visited in each kept sub-directory. *)
Lemma visited_files_dir pats (top : string) (es : entries) :
  visited_files pats top (Dir es) =
  (map (fun '(file, f) => (os_path_join top file, f)) (files_of es) ++
   flat_map
     (fun e => if is_dir (snd e) && keep_dir pats top (fst e)
               then visited_files pats (os_path_join top (fst e)) (snd e)
               else [])
     es)%list.
Proof.
  unfold visited_files. rewrite os_walk_dir. simpl. f_equal.
  induction es as [|[d c] es IH]; simpl; [reflexivity|].
  rewrite flat_map_app, IH. now destruct (is_dir c && keep_dir pats top d).
Qed.

Lemma NoDup_flat_map_keyed {A B K : Type} (g : A -> list B) (key : B -> K)
    (name : A -> K) (l : list A) :
  (forall a, In a l -> NoDup (g a)) ->
  (forall a y, In a l -> In y (g a) -> key y = name a) ->
  NoDup (map name l) ->
  NoDup (flat_map g l).
Proof.
  induction l as [|a l IH]; simpl; intros Hg Hkey Hnd; [constructor|].
  inversion Hnd as [|? ? Ha Hl]; subst.
  apply NoDup_app_disjoint; [auto | apply IH; auto |].
  intros y Hy1 Hy2. apply in_flat_map in Hy2 as (a' & Ha' & Hy2).
  apply Ha. apply in_map_iff. exists a'. split; [|assumption].
  rewrite <- (Hkey a y), <- (Hkey a' y); auto.
Qed.

Lemma files_of_names (es : entries) (name : string) (f : file) :
  In (name, f) (files_of es) -> In name (map fst es).
Proof.
  intros H. apply files_of_in in H. apply in_map_iff. now exists (name, File f).
Qed.

Lemma NoDup_files_of (es : entries) :
  NoDup (map fst es) -> NoDup (map fst (files_of es)).
Proof.
  induction es as [|[n0 [f0|es0]] es IH]; simpl; intros H;
    inversion H as [|? ? Hx Hl]; subst; auto.
  constructor; [|auto]. intros Hin. apply Hx.
  apply in_map_iff in Hin as ([n f] & E & Hin). simpl in E. subst n.
  eapply files_of_names; eassumption.
Qed.

(** No path is visited twice. *)
Lemma visited_files_NoDup pats (n : node) :
  forall p : path,
    valid_names p -> wf_node n = true -> distinct_names n = true ->
    NoDup (map fst (visited_files pats (path_str p) n)).
Proof.
  induction n as [f|es IH] using node_ind'; intros p Hp Hwf Hdn.
  - constructor.
  - destruct (distinct_dir_inv es Hdn) as [Hnd Hsub].
    pose proof (wf_dir_inv es Hwf) as Hwfs.
    rewrite visited_files_dir, map_app.
    assert (Hchunk : forall d c y, In (d, c) es ->
              In y (map fst (if is_dir c && keep_dir pats (path_str p) d
                             then visited_files pats (os_path_join (path_str p) d) c
                             else [])) ->
              exists rel, rel <> [] /\ valid_names (d :: rel) /\
                          y = path_str (p ++ d :: rel)).
    { intros d c y Hin Hy. destruct (Hwfs d c Hin) as [Hd Hc].
      destruct (is_dir c && keep_dir pats (path_str p) d); [|contradiction].
      rewrite join_path_str in Hy by assumption.
      apply in_map_iff in Hy as ([fp f] & E & Hy). simpl in E. subst fp.
      destruct (visited_files_inv pats (p ++ [d]) c y f) as (rel & -> & _ & Hv & Hne & _);
        [apply Forall_app; split; [assumption | now constructor] | assumption | assumption |].
      exists rel. rewrite <- app_assoc. repeat split; [assumption | now constructor]. }
    apply NoDup_app_disjoint.
    + rewrite map_map.
      rewrite (map_ext_in _ (fun x => path_str (p ++ [fst x]))).
      2:{ intros [file f] Hin. simpl. apply join_path_str; [assumption|].
          apply files_of_in in Hin. now destruct (Hwfs file _ Hin). }
      rewrite <- (map_map fst (fun name => path_str (p ++ [name]))).
      apply NoDup_map_inj_in; [|now apply NoDup_files_of].
      intros x y Hx Hy E.
      apply in_map_iff in Hx as ([nx fx] & <- & Hx). apply files_of_in in Hx.
      apply in_map_iff in Hy as ([ny fy] & <- & Hy). apply files_of_in in Hy.
      simpl in *. destruct (Hwfs nx _ Hx) as [Hvx _]. destruct (Hwfs ny _ Hy) as [Hvy _].
      apply path_str_inj in E;
        [| apply Forall_app; split; [assumption | now constructor] ..].
      apply app_inv_head in E. now injection E.
    + rewrite flat_map_concat_map, concat_map, map_map, <- flat_map_concat_map.
      apply (NoDup_flat_map_keyed _
               (fun y => hd "" (skipn (List.length p) (abs_parts y))) fst).
      * intros [d c] Hin. simpl.
        destruct (is_dir c && keep_dir pats (path_str p) d); [|constructor].
        destruct (Hwfs d c Hin) as [Hd Hc].
        rewrite join_path_str by assumption.
        rewrite Forall_forall in IH. apply (IH (d, c) Hin).
        -- apply Forall_app; split; [assumption | now constructor].
        -- assumption.
        -- eapply Hsub; eassumption.
      * intros [d c] y Hin Hy. simpl in Hy.
        destruct (Hchunk d c y Hin Hy) as (rel & _ & Hv & ->).
        rewrite abs_parts_path_str by (apply Forall_app; split; assumption).
        rewrite skipn_app, skipn_all, Nat.sub_diag. reflexivity.
      * assumption.
    + intros y Hy1 Hy2.
      apply in_map_iff in Hy1 as ([fp f] & E & Hy1). simpl in E. subst fp.
      apply in_map_iff in Hy1 as ([file f'] & E & Hy1). injection E as <- <-.
      apply files_of_in in Hy1. destruct (Hwfs file _ Hy1) as [Hfile _].
      rewrite join_path_str in Hy2 by assumption.
      apply in_map_iff in Hy2 as ([fp f2] & E & Hy2). simpl in E. subst fp.
      apply in_flat_map in Hy2 as ([d c] & Hin & Hy2). simpl in Hy2.
      destruct (Hchunk d c (path_str (p ++ [file])) Hin) as (rel & Hne & Hv & E).
      { apply in_map_iff. exists (path_str (p ++ [file]), f2). auto. }
      apply path_str_inj in E;
        [| apply Forall_app; split; [assumption | now constructor]
         | apply Forall_app; split; assumption].
      apply app_inv_head in E. injection E as _ E. now subst rel.
Qed.

End ZipNames.


Section ZipNamesTheorem.
Import PathText PathFacts FS FSFacts Backup BackupFacts BackupRun ZipContent ZipNames Samples.

(** X3.  In the archive a zip-mode run writes no two members have the same
    name, for a source tree in which every directory names each of its
    entries once. *)
Theorem zip_member_names_unique
    (fs : node) (source dest : path) (zf : string)
    (pats : option (list string)) (ts : string) (d : dest_dir)
    (src : node) (members : list (string * string)) :
  valid_names source ->
  tree_get source fs = Some src ->
  wf_node src = true ->
  distinct_names src = true ->
  zf <> "" ->
  dest_get (zip_backup_name source ts zf)
           (snd (backup_directory fs source dest (Some zf) pats ts d))
    = Some (ZipArchive members) ->
  NoDup (map fst members).
Proof.
  intros Hs Hsrc Hwf Hdn Hzf Hget.
  rewrite (backup_zip_run fs source dest zf pats ts d src Hsrc Hzf) in Hget.
  assert (Hm : members = zip_members pats source src).
  { destruct (dest_get (zip_backup_name source ts zf) d) as [[ms|es]|] eqn:E;
      simpl in Hget; try (rewrite dest_get_set in Hget; congruence).
    rewrite E in Hget. discriminate. }
  subst members. rewrite zip_members_spec, map_map.
  set (l := readable_prefix (candidates pats (path_str source) src)).
  assert (Hl : NoDup (map fst l)).
  { apply NoDup_map_readable_prefix. unfold candidates. apply NoDup_map_filter.
    now apply visited_files_NoDup. }
  assert (Hrel : forall x, In x l ->
            exists rel, valid_names rel /\ rel <> [] /\ fst x = path_str (source ++ rel)).
  { intros [fp f] Hin. apply readable_prefix_incl in Hin.
    unfold candidates in Hin. apply filter_In in Hin as [Hin _].
    destruct (visited_files_inv pats source src fp f Hs Hwf Hin)
      as (rel & -> & _ & Hv & Hne & _).
    now exists rel. }
  rewrite (map_ext _ (fun x => relpath (fst x) (path_str source))) by reflexivity.
  rewrite <- (map_map fst (fun s => relpath s (path_str source))).
  apply NoDup_map_inj_in; [|assumption].
  intros s1 s2 H1 H2 E.
  apply in_map_iff in H1 as (x1 & <- & H1). apply in_map_iff in H2 as (x2 & <- & H2).
  destruct (Hrel x1 H1) as (r1 & Hv1 & Hn1 & E1).
  destruct (Hrel x2 H2) as (r2 & Hv2 & Hn2 & E2).
  rewrite E1, E2 in *. rewrite !relpath_below in E by assumption.
  now rewrite (concat_valid_inj r1 r2 Hv1 Hv2 Hn1 Hn2 E).
Qed.

(** A run of X3 on the sample disk. *)
Lemma zip_member_names_unique_witness :
  NoDup (map fst [("a.txt", "alpha"); ("b.log", "beta"); ("sub/c.txt", "gamma")]).
Proof.
  apply (zip_member_names_unique disk project_path backups_path "nightly" None
           "20260101_000000" []
           (project (plain_file "alpha") (plain_file "beta") (plain_file "gamma"))).
  - repeat constructor.
  - reflexivity.
  - reflexivity.
  - reflexivity.
  - discriminate.
  - reflexivity.
Defined.

End ZipNamesTheorem.


(** ** The copy mode: what the copied tree holds *)

Module CopyContent.
Import PathText FS FSFacts Backup.






End CopyContent.


Section CopyModeTheorems.
Import PathText FS FSFacts Backup BackupRun CopyContent Samples.






End CopyModeTheorems.


(** ** Removing files from the tree *)

Module RemoveFacts.
Import PathText FS TreeFacts Clean.

Lemma tree_del_keeps_dir (p : list string) (n : node) :
  is_dir n = true -> is_dir (tree_del p n) = true.
Proof.
  destruct p as [|s p]; [trivial|]. destruct n as [f|es]; [discriminate|]. intros _.
  simpl. destruct p; [reflexivity|]. now destruct (child s es).
Qed.

(** The removed file is gone. *)
Lemma tree_get_del_same (p : list string) :
  forall (n : node) (f : file),
    tree_get p n = Some (File f) -> p <> [] -> tree_get p (tree_del p n) = None.
Proof.
  induction p as [|s p IH]; intros n f Hget Hne; [contradiction|].
  destruct n as [g|es]; [discriminate|]. simpl in Hget.
  destruct (child s es) as [c|] eqn:Hc; [|discriminate].
  destruct p as [|t p].
  - simpl. now rewrite child_del_same.
  - simpl tree_del. rewrite Hc. simpl tree_get at 1. rewrite child_set_same.
    apply (IH c f Hget). discriminate.
Qed.

(** Every other regular file is where it was, as it was. *)
Lemma tree_get_del_other_file (p : list string) :
  forall (q : list string) (n : node) (f g : file),
    tree_get p n = Some (File f) ->
    tree_get q n = Some (File g) -> q <> p ->
    tree_get q (tree_del p n) = Some (File g).
Proof.
  induction p as [|s p IH]; intros q n f g Hp Hq Hne; [assumption|].
  destruct n as [h|es]; [discriminate|].
  destruct q as [|t q]; [discriminate|].
  simpl in Hp, Hq.
  destruct (child s es) as [c|] eqn:Hc; [|discriminate].
  destruct (string_dec t s) as [->|Hts].
  - rewrite Hc in Hq. destruct p as [|u p].
    + injection Hp as ->. destruct q; [contradiction | discriminate].
    + simpl tree_del. rewrite Hc. simpl tree_get at 1. rewrite child_set_same.
      apply (IH q c f g Hp Hq). congruence.
  - destruct p as [|u p].
    + simpl. now rewrite child_del_other.
    + simpl tree_del. rewrite Hc. simpl tree_get at 1. now rewrite child_set_other.
Qed.


(** One turn of the removal loop. *)
Lemma remove_step (p : list string) (n : node) :
  try_except (os_remove p) (fun _ => ret tt) n =
  (Ok tt,
   match tree_get p n with
   | Some (File f) => if f_removable f then tree_del p n else n
   | _ => n
   end).
Proof.
  unfold try_except, os_remove, ret.
  destruct (tree_get p n) as [[f|des]|]; try reflexivity.
  now destruct (f_removable f).
Qed.

Lemma tree_get_del_none (p : list string) :
  forall (q : list string) (n : node) (f : file),
    tree_get p n = Some (File f) ->
    tree_get q n = None -> tree_get q (tree_del p n) = None.
Proof.
  induction p as [|s p IH]; intros q n f Hp Hq; [assumption|].
  destruct n as [h|es]; [discriminate|].
  destruct q as [|t q]; [discriminate|].
  simpl in Hp, Hq.
  destruct (child s es) as [c|] eqn:Hc; [|discriminate].
  destruct (string_dec t s) as [->|Hts].
  - rewrite Hc in Hq. destruct p as [|u p].
    + simpl. now rewrite child_del_same.
    + simpl tree_del. rewrite Hc. simpl tree_get at 1. rewrite child_set_same.
      apply (IH q c f Hp Hq).
  - destruct p as [|u p].
    + simpl. now rewrite child_del_other.
    + simpl tree_del. rewrite Hc. simpl tree_get at 1. now rewrite child_set_other.
Qed.

Lemma after_remove_dir (p : list string) (n : node) :
  is_dir n = true -> is_dir (after_remove p n) = true.
Proof.
  intros Hn. unfold after_remove. destruct (tree_get p n) as [[f|des]|]; try assumption.
  destruct (f_removable f); [now apply tree_del_keeps_dir | assumption].
Qed.

Lemma remove_all_cons (p : list string) (files : list (list string)) (n : node) :
  snd (remove_all (p :: files) n) = snd (remove_all files (after_remove p n)).
Proof.
  unfold remove_all. simpl for_each. unfold bind. now rewrite remove_step.
Qed.

(** What is not there before the removal loop is not there after it. *)
Lemma remove_all_none (files : list (list string)) :
  forall (n : node) (q : list string),
    tree_get q n = None -> tree_get q (snd (remove_all files n)) = None.
Proof.
  induction files as [|p files IH]; intros n q Hq; [exact Hq|].
  rewrite remove_all_cons. apply IH. unfold after_remove.
  destruct (tree_get p n) as [[f|des]|] eqn:Hp; try assumption.
  destruct (f_removable f); [|assumption]. now apply (tree_get_del_none p q n f).
Qed.

(** A regular file that the loop is to remove and can remove is gone. *)
Lemma remove_all_gone (files : list (list string)) :
  forall (n : node) (q : list string) (g : file),
    is_dir n = true -> tree_get q n = Some (File g) ->
    In q files -> f_removable g = true ->
    tree_get q (snd (remove_all files n)) = None.
Proof.
  induction files as [|p files IH]; intros n q g Hn Hq Hin Hr; [contradiction|].
  rewrite remove_all_cons.
  assert (Hq0 : q <> []) by (intros ->; destruct n; discriminate).
  destruct (list_eq_dec string_dec p q) as [->|Hpq].
  - apply remove_all_none. unfold after_remove. rewrite Hq, Hr.
    now apply (tree_get_del_same q n g).
  - destruct Hin as [E|Hin]; [contradiction|].
    apply (IH _ q g); [now apply after_remove_dir | | assumption | assumption].
    unfold after_remove. destruct (tree_get p n) as [[f|des]|] eqn:Hp; try assumption.
    destruct (f_removable f); [|assumption].
    apply (tree_get_del_other_file p q n f g); auto.
Qed.

(** Any other regular file, and a file that cannot be removed, stays as it
    was. *)
Lemma remove_all_kept (files : list (list string)) :
  forall (n : node) (q : list string) (g : file),
    is_dir n = true -> tree_get q n = Some (File g) ->
    ~ In q files \/ f_removable g = false ->
    tree_get q (snd (remove_all files n)) = Some (File g).
Proof.
  induction files as [|p files IH]; intros n q g Hn Hq Hor; [exact Hq|].
  rewrite remove_all_cons.
  apply (IH _ q g); [now apply after_remove_dir | |].
  - unfold after_remove. destruct (tree_get p n) as [[f|des]|] eqn:Hp; try assumption.
    destruct (f_removable f) eqn:Hf; [|assumption].
    apply (tree_get_del_other_file p q n f g); auto.
    intros ->. rewrite Hq in Hp. injection Hp as ->.
    destruct Hor as [Hnin|Hr]; [apply Hnin; now left | congruence].
  - destruct Hor as [Hnin|Hr]; [left; intros Hin; apply Hnin; now right | now right].
Qed.


End RemoveFacts.


Section CleanEffects.
Import PathText FS TreeFacts Clean CleanFacts RemoveFacts Samples.
Variable glob : entries -> string -> result (list (list string)).

(** A change at one path leaves alone what lies at a path that parts from
    it. *)
Lemma tree_get_set_apart (common : list string) :
  forall (a b : string) (ra rb : list string) (new n : node),
    a <> b ->
    tree_get (common ++ a :: ra) (tree_set (common ++ b :: rb) new n) =
    tree_get (common ++ a :: ra) n.
Proof.
  induction common as [|s common IH]; intros a b ra rb new n Hab.
  - destruct n as [f|es]; [reflexivity|]. now apply tree_get_set_other_top.
  - destruct n as [f|es]; [reflexivity|]. simpl.
    destruct (child s es) as [c|] eqn:Hc.
    + simpl. rewrite child_set_same. now apply IH.
    + destruct (common ++ b :: rb)%list eqn:E; [now destruct common|].
      simpl. now rewrite Hc.
Qed.

(** The file system a live run leaves. *)
Lemma clean_live_state (fs : node) (directory : path) (es : entries)
    (pattern : string) (matches : list (list string)) (older_than : option Z)
    (current_time : Q) :
  tree_get directory fs = Some (Dir es) ->
  glob es pattern = Ok matches ->
  snd (clean_directory glob directory pattern older_than false current_time fs) =
  tree_set directory
    (snd (remove_all (select_files (Dir es) older_than current_time matches) (Dir es))) fs.
Proof.
  intros Hdir Hglob.
  destruct (clean_body_run glob fs directory es pattern matches older_than false
              current_time Hdir Hglob) as (total & _ & Hrun).
  unfold clean_directory, try_except. now rewrite Hrun.
Qed.

(** X6.  A live run of [clean_directory] removes the selected files and
    nothing else: a regular file below the directory is gone afterwards
    if it was selected and could be removed, and is there unchanged if it
    was not selected or could not be removed (the count returned includes
    the latter all the same). *)
Theorem clean_removes_exactly_the_selection
    (fs : node) (directory : path) (es : entries) (pattern : string)
    (matches : list (list string)) (older_than : option Z) (current_time : Q)
    (q : list string) (g : file) :
  tree_get directory fs = Some (Dir es) ->
  glob es pattern = Ok matches ->
  tree_get q (Dir es) = Some (File g) ->
  let files_to_delete := select_files (Dir es) older_than current_time matches in
  let fs' := snd (clean_directory glob directory pattern older_than false current_time fs) in
  (In q files_to_delete -> f_removable g = true ->
     tree_get (directory ++ q) fs' = None) /\
  (~ In q files_to_delete \/ f_removable g = false ->
     tree_get (directory ++ q) fs' = Some (File g)).
Proof.
  intros Hdir Hglob Hq files_to_delete fs'. unfold fs'.
  rewrite (clean_live_state fs directory es pattern matches older_than current_time
             Hdir Hglob).
  rewrite (tree_get_set_below directory q _ _ fs Hdir). fold files_to_delete. split.
  - intros Hin Hr. now apply (remove_all_gone files_to_delete (Dir es) q g).
  - intros Hor. now apply (remove_all_kept files_to_delete (Dir es) q g).
Qed.


End CleanEffects.

Section CleanEffectsWitness.
Import PathText FS Clean Samples.

(** A run of X6: thirty days of retention over the sample log directory
    removes [old.log] and keeps [young.log]. *)
Lemma clean_removes_exactly_the_selection_witness :
  tree_get (logs_path ++ ["old.log"])
    (snd (clean_directory glob1 logs_path "*.log" (Some 30%Z) false 1780000000%Q
            (logs_disk 1780000000 30))) = None.
Proof.
  refine (proj1 (clean_removes_exactly_the_selection glob1 (logs_disk 1780000000 30)
                   logs_path _ "*.log" [["old.log"]; ["young.log"]] (Some 30%Z)
                   1780000000%Q ["old.log"] _ eq_refl eq_refl eq_refl) _ _).
  - left. reflexivity.
  - reflexivity.
Defined.


End CleanEffectsWitness.


Section CleanAgain.
Import PathText FS TreeFacts Clean CleanFacts RemoveFacts Samples.







End CleanAgain.


(** ** More on the loop of [organize_files] *)

Module OrganizeMore.
Import PathText FS TreeFacts Organize OrganizeFacts.

(** A turn of the loop for [name] leaves the other regular files of the
    top listing where they are. *)
Lemma organize_one_others (rules : rule_table) (now : string -> string)
    (name : string) (es : entries) (r : result bool) (es2 : entries) :
  proper_rules rules = true ->
  organize_one rules now name (Dir es) = (r, Dir es2) ->
  forall x g, x <> name -> child x es = Some (File g) -> child x es2 = Some (File g).
Proof.
  intros Hp. unfold organize_one, is_file_at. simpl tree_get.
  destruct (child name es) as [[f|des]|] eqn:Hname.
  2,3: intros [= _ <-]; auto.
  destruct (rule_for (extension_of name) rules) as [folder|] eqn:Hrule.
  2: intros [= _ <-]; auto.
  pose proof (rule_for_proper rules _ folder Hp Hrule) as Hne.
  destruct folder as [|s ps]; [contradiction|].
  destruct (makedirs (s :: ps) (Dir es)) as [n1|e] eqn:Hmk.
  2: intros [= _ <-]; auto.
  destruct (makedirs_top s ps es n1 Hmk) as (es1 & c1 & -> & Hs1 & Hc1 & Hnf & Hoth).
  assert (Hns : name <> s) by (intros ->; now apply (Hnf f)).
  assert (Hname1 : child name es1 = Some (File f)) by (now rewrite Hoth).
  set (dest_path := if exists_at ((s :: ps) ++ [name]) (Dir es1)
                    then ((s :: ps) ++ [stamped_name name (now name)])%list
                    else ((s :: ps) ++ [name])%list).
  assert (Hdp : exists q, q <> [] /\ dest_path = s :: q).
  { unfold dest_path. destruct (exists_at _ _); simpl; eexists; (split; [|reflexivity]);
      now destruct ps. }
  destruct Hdp as (q & Hq & ->).
  destruct (shutil_move name (s :: q) (Dir es1)) as [mr n3] eqn:Hmv.
  pose proof (shutil_move_top name s q es1 f c1 mr n3 Hname1 Hs1 Hc1 Hq Hmv) as Hres.
  assert (Hx1 : forall x g, child x es = Some (File g) -> x <> s /\ child x es1 = Some (File g)).
  { intros x g Hx. assert (x <> s) by (intros ->; now apply (Hnf g)).
    split; [assumption | now rewrite Hoth]. }
  destruct mr as [[]|e].
  - destruct Hres as (c2 & Hc2 & ->). intros [= _ <-] x g Hxn Hx.
    destruct (Hx1 x g Hx) as [Hxs Hx'].
    now rewrite child_set_other, child_del_other.
  - subst n3. intros [= _ <-] x g Hxn Hx. now destruct (Hx1 x g Hx).
Qed.

(** A turn of the loop for an entry without a rule changes nothing. *)
Lemma organize_one_unruled (rules : rule_table) (now : string -> string)
    (name : string) (n : node) :
  rule_for (extension_of name) rules = None ->
  organize_one rules now name n = (Ok false, n).
Proof.
  intros Hr. unfold organize_one. rewrite Hr. now destruct (is_file_at [name] n).
Qed.

(** A turn of the loop moves a file exactly when the entry is a regular
    file with a rule. *)
Lemma organize_one_moved (rules : rule_table) (now : string -> string)
    (name : string) (es : entries) (b : bool) (n2 : node) :
  organize_one rules now name (Dir es) = (Ok b, n2) -> b = ruled_file rules es name.
Proof.
  unfold organize_one, is_file_at, ruled_file. simpl tree_get.
  destruct (child name es) as [[f|des]|]; try (now intros [= <- _]).
  destruct (rule_for (extension_of name) rules) as [folder|]; [|now intros [= <- _]].
  destruct (makedirs folder (Dir es)) as [n1|e]; [|discriminate].
  destruct (shutil_move name _ n1) as [[[]|e] n3]; [now intros [= <- _] | discriminate].
Qed.

(** Whatever the loop does, a regular file without a rule stays in the
    top listing as it was. *)
Lemma organize_loop_keeps_unruled (rules : rule_table) (now : string -> string)
    (x : string) (g : file) :
  proper_rules rules = true ->
  rule_for (extension_of x) rules = None ->
  forall (names : list string) (c : nat) (es : entries) (r : result nat) (n' : node),
    child x es = Some (File g) ->
    organize_loop rules now names c (Dir es) = (r, n') ->
    exists es', n' = Dir es' /\ child x es' = Some (File g).
Proof.
  intros Hp Hx. induction names as [|name rest IH]; intros c es r n' Hg; simpl.
  - unfold ret. intros [= _ <-]. eauto.
  - unfold bind. destruct (organize_one rules now name (Dir es)) as [r1 n1] eqn:Hone.
    destruct (organize_one_top rules now name es r1 n1 Hp Hone) as (es1 & -> & _).
    assert (Hg1 : child x es1 = Some (File g)).
    { destruct (string_dec x name) as [->|Hxn].
      - rewrite (organize_one_unruled rules now name (Dir es) Hx) in Hone.
        now injection Hone as _ <-.
      - now apply (organize_one_others rules now name es r1 es1 Hp Hone x g). }
    destruct r1 as [b|e].
    + intros Hloop. exact (IH _ es1 r n' Hg1 Hloop).
    + intros [= _ <-]. eauto.
Qed.

(** The count of a run that completes: the regular files with a rule
    among the names, each name being met once. *)
Lemma organize_loop_count (rules : rule_table) (now : string -> string)
    (names : list string) :
  proper_rules rules = true ->
  NoDup names ->
  forall (c : nat) (es : entries) (c' : nat) (n' : node),
    organize_loop rules now names c (Dir es) = (Ok c', n') ->
    c' = c + List.length (filter (ruled_file rules es) names).
Proof.
  intros Hp. induction names as [|name rest IH]; intros Hnd c es c' n'; simpl.
  - unfold ret. intros [= <- _]. lia.
  - inversion Hnd as [|? ? Hnin Hnd']; subst.
    unfold bind. destruct (organize_one rules now name (Dir es)) as [r1 n1] eqn:Hone.
    destruct (organize_one_top rules now name es r1 n1 Hp Hone) as (es1 & -> & Hfiles & _).
    destruct r1 as [b|e]; [|discriminate]. intros Hloop.
    rewrite (IH Hnd' _ es1 c' n' Hloop).
    rewrite (organize_one_moved rules now name es b _ Hone).
    assert (Hext : filter (ruled_file rules es1) rest = filter (ruled_file rules es) rest).
    { apply filter_ext_in. intros x Hx. unfold ruled_file.
      assert (Hxn : x <> name) by (intros ->; contradiction).
      destruct (child x es) as [[g|des]|] eqn:Hc.
      - now rewrite (organize_one_others rules now name es _ es1 Hp Hone x g Hxn Hc).
      - destruct (child x es1) as [[g1|des1]|] eqn:Hc1; try reflexivity.
        rewrite (Hfiles x g1 Hc1) in Hc. discriminate.
      - destruct (child x es1) as [[g1|des1]|] eqn:Hc1; try reflexivity.
        rewrite (Hfiles x g1 Hc1) in Hc. discriminate. }
    rewrite Hext. destruct (ruled_file rules es name); simpl; lia.
Qed.

End OrganizeMore.


Section OrganizeEffects.
Import PathText FS TreeFacts Organize OrganizeFacts OrganizeMore ZipNames Samples.

(** The file system [organize_files] leaves, whether its body returns or
    raises. *)
Lemma organize_files_state (fs : node) (directory : path) (es : entries)
    (rules : option rule_table) (now : string -> string) :
  tree_get directory fs = Some (Dir es) ->
  snd (organize_files directory rules now fs) =
  tree_set directory
    (snd (organize_loop (effective_rules rules) now (glob_star es) O (Dir es))) fs.
Proof.
  intros Hdir. unfold organize_files, try_except, organize_body. rewrite Hdir.
  destruct (organize_loop _ now (glob_star es) O (Dir es)) as [[c|e] n']; reflexivity.
Qed.

(** X9.  [organize_files] leaves alone what it has no rule for: a regular
    file of the directory whose extension is not in the rule table is
    afterwards where it was, as it was, also when the run raised; and
    nothing changes at a path that parts from the path of the directory.
    The rule table sends every extension to a sub-folder. *)
Theorem organize_keeps_files_without_rule
    (fs : node) (directory : path) (es : entries) (rules : option rule_table)
    (now : string -> string) (x : string) (g : file) :
  proper_rules (effective_rules rules) = true ->
  tree_get directory fs = Some (Dir es) ->
  child x es = Some (File g) ->
  rule_for (extension_of x) (effective_rules rules) = None ->
  let fs' := snd (organize_files directory rules now fs) in
  tree_get (directory ++ [x]) fs' = Some (File g) /\
  (forall common a b ra rb, a <> b -> directory = (common ++ b :: rb)%list ->
     tree_get (common ++ a :: ra) fs' = tree_get (common ++ a :: ra) fs).
Proof.
  intros Hp Hdir Hx Hrule fs'. unfold fs'.
  rewrite (organize_files_state fs directory es rules now Hdir).
  destruct (organize_loop (effective_rules rules) now (glob_star es) O (Dir es))
    as [r n'] eqn:Hloop.
  destruct (organize_loop_keeps_unruled _ now x g Hp Hrule _ _ es r n' Hx Hloop)
    as (es' & -> & Hx').
  split.
  - rewrite (tree_get_set_below directory [x] _ _ fs Hdir). simpl. now rewrite Hx'.
  - intros common a b ra rb Hab ->. now apply tree_get_set_apart.
Qed.

(** A run of X9: [notes], which has no extension, stays in the inbox. *)
Lemma organize_keeps_files_without_rule_witness :
  tree_get (inbox_path ++ ["notes"])
    (snd (organize_files inbox_path None (at_second "20260101_000000") mixed_disk))
  = Some (File (plain_file "n")).
Proof.
  apply (organize_keeps_files_without_rule mixed_disk inbox_path mixed_entries None
           (at_second "20260101_000000") "notes" (plain_file "n")).
  - reflexivity.
  - reflexivity.
  - reflexivity.
  - reflexivity.
Defined.

(** X10.  The count a completed run of [organize_files] returns is the
    number of regular files of the directory whose extension has a rule,
    for a directory that names each of its entries once and a rule table
    that sends every extension to a sub-folder. *)
Theorem organize_counts_files_with_rule
    (fs fs1 : node) (directory : path) (es : entries) (rules : option rule_table)
    (now : string -> string) (count : nat) :
  proper_rules (effective_rules rules) = true ->
  tree_get directory fs = Some (Dir es) ->
  distinct (map fst es) = true ->
  organize_body directory rules now fs = (Ok count, fs1) ->
  count = List.length (filter (ruled_file (effective_rules rules) es) (map fst es)) /\
  organize_files directory rules now fs = (Ok count, fs1).
Proof.
  intros Hp Hdir Hd Hrun. split.
  - unfold organize_body in Hrun. rewrite Hdir in Hrun.
    destruct (organize_loop (effective_rules rules) now (glob_star es) O (Dir es))
      as [r n'] eqn:Hloop.
    injection Hrun as -> _. rewrite glob_star_names in Hloop.
    apply (organize_loop_count _ now _ Hp (distinct_NoDup _ Hd) _ _ _ _ Hloop).
  - unfold organize_files, try_except. now rewrite Hrun.
Qed.

(** A run of X10: two of the five entries of the mixed inbox are files
    with a rule. *)
Lemma organize_counts_files_with_rule_witness :
  2 = List.length (filter (ruled_file (effective_rules None) mixed_entries)
                    (map fst mixed_entries)) /\
  organize_files inbox_path None (at_second "20260101_000000") mixed_disk
  = (Ok 2,
     snd (organize_body inbox_path None (at_second "20260101_000000") mixed_disk)).
Proof.
  apply (organize_counts_files_with_rule mixed_disk _ inbox_path mixed_entries None
           (at_second "20260101_000000") 2).
  - reflexivity.
  - reflexivity.
  - reflexivity.
  - reflexivity.
Defined.

End OrganizeEffects.


Section OrganizeMoves.
Import PathText FS TreeFacts Organize OrganizeFacts OrganizeMore Samples.

Lemma makedirs_post (p : list string) :
  forall n n1 : node, makedirs p n = Ok n1 -> exists des, tree_get p n1 = Some (Dir des).
Proof.
  induction p as [|s p IH]; intros n n1; simpl.
  - destruct n as [f|es]; [discriminate|]. intros [= <-]. eauto.
  - destruct n as [f|es]; [discriminate|].
    destruct (makedirs p _) as [c'|e] eqn:E; [|discriminate].
    intros [= <-]. simpl. rewrite child_set_same. eapply IH. eassumption.
Qed.

(** [makedirs] changes nothing beyond the folder it is to create. *)
Lemma makedirs_beyond (p : list string) (x : string) (r : list string) :
  forall n n1 : node,
    makedirs p n = Ok n1 ->
    tree_get (p ++ x :: r) n1 = tree_get (p ++ x :: r) n.
Proof.
  induction p as [|s p IH]; intros n n1; simpl makedirs.
  - destruct n as [f|es]; [discriminate|]. now intros [= <-].
  - destruct n as [f|es]; [discriminate|].
    destruct (makedirs p _) as [c'|e] eqn:E; [|discriminate].
    intros [= <-]. simpl. rewrite child_set_same.
    rewrite (IH _ _ E). destruct (child s es); [reflexivity|].
    destruct p; reflexivity.
Qed.

(** X11.  A turn of the loop for a file whose name is free in its
    destination folder: the folder is created if it is missing, the file
    arrives in it under its own name and with its content, and it has left
    the directory.  If a regular file is in the way of the folder, the
    turn raises and changes nothing. *)
Theorem organize_moves_file_to_folder
    (rules : rule_table) (now : string -> string) (n : node) (name : string)
    (f : file) (folder : list string) :
  tree_get [name] n = Some (File f) ->
  rule_for (extension_of name) rules = Some folder ->
  folder <> [] ->
  tree_get (folder ++ [name]) n = None ->
  match makedirs folder n with
  | Ok _ =>
      exists n2,
        organize_one rules now name n = (Ok true, n2) /\
        tree_get (folder ++ [name]) n2 = Some (File f) /\
        tree_get [name] n2 = None
  | Raise e => organize_one rules now name n = (Raise e, n)
  end.
Proof.
  intros Hname Hrule Hne Hfree.
  destruct (makedirs folder n) as [n1|e] eqn:Hmk.
  2:{ unfold organize_one, is_file_at. now rewrite Hname, Hrule, Hmk. }
  destruct n as [g|es]; [destruct name; discriminate|].
  destruct folder as [|s ps]; [contradiction|].
  destruct (makedirs_top s ps es n1 Hmk) as (es1 & c1 & -> & Hs1 & Hc1 & Hnf & Hoth).
  assert (Hname0 : child name es = Some (File f)).
  { simpl in Hname. now destruct (child name es). }
  assert (Hns : name <> s) by (intros ->; now apply (Hnf f)).
  assert (Hname1 : tree_get [name] (Dir es1) = Some (File f)).
  { simpl. rewrite Hoth by assumption. now rewrite Hname0. }
  destruct (makedirs_post _ _ _ Hmk) as [des1 Hfolder1].
  assert (Hfree1 : tree_get ((s :: ps) ++ [name]) (Dir es1) = None).
  { now rewrite (makedirs_beyond _ name [] _ _ Hmk). }
  assert (Hfolder' : tree_get (s :: ps) (tree_del [name] (Dir es1)) = Some (Dir des1)).
  { rewrite tree_get_del_other_top by (now apply not_eq_sym). assumption. }
  exists (tree_set (s :: ps) (Dir (set_child name (File f) des1))
            (tree_del [name] (Dir es1))).
  split; [|split].
  - unfold organize_one, is_file_at. rewrite Hname, Hrule, Hmk.
    unfold exists_at. rewrite Hfree1.
    unfold shutil_move. rewrite Hname1, Hfree1.
    destruct (list_eq_dec string_dec ((s :: ps) ++ [name]) [name]) as [E|_].
    { injection E as _ E. now destruct ps. }
    rewrite removelast_last, Hfolder1.
    now rewrite (tree_set_snoc _ _ _ _ _ Hfolder').
  - rewrite (tree_get_set_below _ _ _ _ _ Hfolder'). simpl. now rewrite child_set_same.
  - change (tree_del [name] (Dir es1)) with (Dir (del_child name es1)).
    rewrite tree_get_set_other_top by assumption.
    simpl. now rewrite child_del_same.
Qed.

(** A run of X11: [report.pdf] goes to the folder [Documents/PDFs], which
    is not there yet. *)
Lemma organize_moves_file_to_folder_witness :
  exists n2,
    organize_one default_rules (at_second "20260101_000000") "report.pdf" (inbox "r")
    = (Ok true, n2) /\
    tree_get (["Documents"; "PDFs"] ++ ["report.pdf"]) n2 = Some (File (plain_file "r")) /\
    tree_get ["report.pdf"] n2 = None.
Proof.
  apply (organize_moves_file_to_folder default_rules (at_second "20260101_000000")
           (inbox "r") "report.pdf" (plain_file "r") ["Documents"; "PDFs"]).
  - reflexivity.
  - reflexivity.
  - discriminate.
  - reflexivity.
Defined.

End OrganizeMoves.

(** ** Extensions *)

Module ExtensionFacts.
Import PathText Organize.
Local Open Scope string_scope.

Lemma lower_ascii_dot (c : ascii) :
  Ascii.eqb (lower_ascii c) "."%char = Ascii.eqb c "."%char.
Proof. destruct c as [[] [] [] [] [] [] [] []]; reflexivity. Qed.

Lemma lower_ascii_idem (c : ascii) : lower_ascii (lower_ascii c) = lower_ascii c.
Proof. destruct c as [[] [] [] [] [] [] [] []]; reflexivity. Qed.

Lemma lower_idem (s : string) : lower (lower s) = lower s.
Proof.
  induction s as [|c s IH]; simpl; [reflexivity|]. now rewrite lower_ascii_idem, IH.
Qed.

Lemma lower_empty (s : string) : (lower s =? "") = (s =? "").
Proof. now destruct s. Qed.

Lemma rsplit_dot_lower (s : string) :
  rsplit_dot (lower s) =
  match rsplit_dot s with
  | Some (a, b) => Some (lower a, lower b)
  | None => None
  end.
Proof.
  induction s as [|c s IH]; simpl; [reflexivity|]. rewrite IH.
  destruct (rsplit_dot s) as [[a b]|]; [reflexivity|].
  rewrite lower_ascii_dot. now destruct (Ascii.eqb c ".").
Qed.

Lemma suffix_lower (s : string) : suffix (lower s) = lower (suffix s).
Proof.
  unfold suffix. rewrite rsplit_dot_lower.
  destruct (rsplit_dot s) as [[a b]|]; [|reflexivity].
  rewrite !lower_empty. now destruct ((a =? "") || (b =? "")).
Qed.

Lemma has_dot_lower (s : string) : has_dot (lower s) = has_dot s.
Proof.
  induction s as [|c s IH]; simpl; [reflexivity|]. now rewrite lower_ascii_dot, IH.
Qed.

Lemma rsplit_dot_none (s : string) : rsplit_dot s = None <-> has_dot s = false.
Proof.
  induction s as [|c s IH]; simpl; [tauto|].
  destruct (rsplit_dot s) as [[a b]|].
  - split; [discriminate|]. intros H. apply orb_false_iff in H as [_ H].
    apply IH in H. discriminate.
  - destruct (Ascii.eqb c "."); simpl; [split; discriminate|].
    split; [intros _; now apply IH | reflexivity].
Qed.

(** After the last dot there is no dot. *)
Lemma rsplit_dot_tail (s a b : string) :
  rsplit_dot s = Some (a, b) -> has_dot b = false.
Proof.
  revert a b. induction s as [|c s IH]; intros a b; simpl; [discriminate|].
  destruct (rsplit_dot s) as [[a0 b0]|] eqn:E.
  - intros [= _ <-]. now apply (IH a0).
  - destruct (Ascii.eqb c "."); [|discriminate]. intros [= _ <-]. now apply rsplit_dot_none.
Qed.

Lemma lstrip_no_dot (s : string) : has_dot s = false -> lstrip_dot s = s.
Proof.
  destruct s as [|c s]; simpl; [reflexivity|]. intros H.
  apply orb_false_iff in H as [Hc _]. now rewrite Hc.
Qed.

(** The extension the rule table is asked for: the text after the last
    dot of the name, in lower case, when the dot is neither the first nor
    the last character; the empty text otherwise. *)
Lemma extension_of_spec (name : string) :
  extension_of name =
  match rsplit_dot name with
  | Some (a, b) => if (a =? "") || (b =? "") then "" else lower b
  | None => ""
  end.
Proof.
  unfold extension_of, suffix.
  destruct (rsplit_dot name) as [[a b]|] eqn:E; [|reflexivity].
  destruct ((a =? "") || (b =? "")); [reflexivity|].
  simpl. apply lstrip_no_dot. rewrite has_dot_lower. eapply rsplit_dot_tail; eassumption.
Qed.

End ExtensionFacts.

Section ExtensionTheorems.
Import PathText FS TreeFacts Organize OrganizeFacts OrganizeMore ExtensionFacts Samples.

(** X12.  The classification ignores letter case: a name and its
    lower-case form are looked up under the same extension.  The
    extension looked up is in lower case and has no dot, so a rule whose
    key has an upper-case letter or a dot is never used. *)
Theorem extension_is_lower_case (name : string) :
  extension_of (lower name) = extension_of name /\
  lower (extension_of name) = extension_of name /\
  has_dot (extension_of name) = false /\
  forall key : string,
    lower key <> key \/ has_dot key = true -> extension_of name <> key.
Proof.
  assert (H1 : extension_of (lower name) = extension_of name).
  { unfold extension_of. now rewrite suffix_lower, lower_idem. }
  assert (H2 : lower (extension_of name) = extension_of name).
  { rewrite extension_of_spec. destruct (rsplit_dot name) as [[a b]|]; [|reflexivity].
    destruct ((a =? "") || (b =? ""))%string; [reflexivity | apply lower_idem]. }
  assert (H3 : has_dot (extension_of name) = false).
  { rewrite extension_of_spec. destruct (rsplit_dot name) as [[a b]|] eqn:E; [|reflexivity].
    destruct ((a =? "") || (b =? ""))%string; [reflexivity|].
    rewrite has_dot_lower. eapply rsplit_dot_tail; eassumption. }
  repeat split; try assumption.
  intros key [Hk|Hk] E; subst key; congruence.
Qed.

(** A run of X12: the name [PHOTO.JPG] and the rule key [JPG]. *)
Lemma extension_is_lower_case_witness :
  extension_of (lower "PHOTO.JPG") = extension_of "PHOTO.JPG" /\
  lower (extension_of "PHOTO.JPG") = extension_of "PHOTO.JPG" /\
  has_dot (extension_of "PHOTO.JPG") = false /\
  extension_of "PHOTO.JPG" <> "JPG".
Proof.
  destruct (extension_is_lower_case "PHOTO.JPG") as (H1 & H2 & H3 & H4).
  split; [exact H1 | split; [exact H2 | split; [exact H3|]]].
  apply H4. left. discriminate.
Defined.

(** X13.  A name without a dot after its first character, such as
    [Makefile] or [.profile], has the empty extension; the default rules
    have no entry for it, so [organize_files] under the default rules
    leaves such a file where it is. *)
Theorem names_without_extension_stay
    (c : ascii) (r : string) (fs : node) (directory : path) (es : entries)
    (now : string -> string) (g : file) :
  has_dot r = false ->
  tree_get directory fs = Some (Dir es) ->
  child (String c r) es = Some (File g) ->
  extension_of (String c r) = "" /\
  tree_get (directory ++ [String c r])
    (snd (organize_files directory None now fs)) = Some (File g).
Proof.
  intros Hr Hdir Hc.
  assert (He : extension_of (String c r) = "").
  { rewrite extension_of_spec. simpl.
    apply rsplit_dot_none in Hr. rewrite Hr.
    destruct (Ascii.eqb c "."); [|reflexivity]. now rewrite String.eqb_refl. }
  split; [exact He|].
  rewrite (organize_files_state fs directory es None now Hdir).
  destruct (organize_loop (effective_rules None) now (glob_star es) O (Dir es))
    as [res n'] eqn:Hloop.
  destruct (organize_loop_keeps_unruled (effective_rules None) now (String c r) g
              eq_refl) with (names := glob_star es) (c := O) (es := es) (r := res) (n' := n')
    as (es' & -> & Hc'); try assumption.
  { now rewrite He. }
  rewrite (tree_get_set_below directory [String c r] _ _ fs Hdir). simpl. now rewrite Hc'.
Qed.

(** A run of X13: the hidden file [.profile] of the mixed inbox. *)
Lemma names_without_extension_stay_witness :
  extension_of ".profile" = "" /\
  tree_get (inbox_path ++ [".profile"])
    (snd (organize_files inbox_path None (at_second "20260101_000000") mixed_disk))
  = Some (File (plain_file "h")).
Proof.
  apply (names_without_extension_stay "."%char "profile" mixed_disk inbox_path
           mixed_entries (at_second "20260101_000000") (plain_file "h")).
  - reflexivity.
  - reflexivity.
  - reflexivity.
Defined.

End ExtensionTheorems.


(** ** Where the two modes of [backup_directory] agree *)

Section ModesAgree.
Import PathText PathFacts FS FSFacts Backup BackupFacts BackupRun Fnmatch FnmatchFacts
       ZipContent CopyContent Samples.






End ModesAgree.


(** ** Backup names *)

Section BackupNames.
Import PathText PathFacts FS FSFacts Backup BackupFacts BackupRun Fnmatch FnmatchFacts
       Samples.

Lemma dest_set_twice (name : string) (a b : artifact) (d : dest_dir) :
  dest_set name b (dest_set name a d) = dest_set name b d.
Proof.
  induction d as [|[n a'] d IH]; simpl.
  - now rewrite String.eqb_refl.
  - destruct (n =? name) eqn:E; simpl; rewrite E; [reflexivity | now rewrite IH].
Qed.

Lemma endswith_refl (s : string) : endswith s s = true.
Proof. rewrite endswith_unfold. now rewrite String.eqb_refl. Qed.

Lemma endswith_app (a b suf : string) :
  endswith b suf = true -> endswith (a ++ b)%string suf = true.
Proof.
  intros H. induction a as [|c a IH]; [exact H|].
  change (String c a ++ b)%string with (String c (a ++ b)%string).
  rewrite endswith_unfold, IH. apply orb_true_r.
Qed.

Lemma zip_filename_ends (zf : string) : endswith (zip_filename zf) ".zip" = true.
Proof.
  unfold zip_filename. destruct (endswith zf ".zip") eqn:E; [exact E|].
  apply endswith_app, endswith_refl.
Qed.

(** A copy-mode run that returned a path has taken its name. *)
Lemma copy_run_takes_name (fs : node) (source dest : path)
    (pats : option (list string)) (ts : string) (d d1 : dest_dir) (p : string) :
  backup_directory fs source dest None pats ts d = (Ok (Some p), d1) ->
  exists c, dest_get (copy_backup_name source ts) d1 = Some c.
Proof.
  unfold backup_directory, try_except, bind, backup_body, ret, raise.
  fold (copy_backup_name source ts).
  destruct (tree_get source fs) as [[f|es]|]; try discriminate.
  destruct (dest_get (copy_backup_name source ts) d); [discriminate|].
  destruct (copytree _ _ _) as [copied errors].
  destruct errors; [|discriminate].
  intros [= _ <-]. rewrite dest_get_set. eauto.
Qed.

(** X15.  The name of a backup carries the time to the second, so a second
    backup of the same source within that second gets the name of the
    first.  The copy mode then refuses: it returns [None] and leaves the
    first copy as it is.  The zip mode writes over the first archive: the
    destination is what the second run alone would have left. *)
Theorem second_backup_in_the_same_second
    (fs fs' : node) (source dest : path) (pats pats' : option (list string))
    (ts zf : string) (d d1 d2 : dest_dir) (p q : string) (src' : node) :
  backup_directory fs source dest None pats ts d = (Ok (Some p), d1) ->
  zf <> "" ->
  backup_directory fs source dest (Some zf) pats ts d = (Ok (Some q), d2) ->
  tree_get source fs' = Some src' ->
  backup_directory fs' source dest None pats' ts d1 = (Ok None, d1) /\
  snd (backup_directory fs' source dest (Some zf) pats' ts d2) =
    dest_set (zip_backup_name source ts zf)
             (ZipArchive (zip_members pats' source src')) d.
Proof.
  intros Hcopy Hzf Hzip Hsrc'. split.
  - destruct (copy_run_takes_name _ _ _ _ _ _ _ _ Hcopy) as [c Hc].
    unfold backup_directory, try_except, bind, backup_body, ret, raise.
    fold (copy_backup_name source ts). rewrite Hsrc'.
    destruct src' as [f|es]; [reflexivity|]. now rewrite Hc.
  - destruct (tree_get source fs) as [src|] eqn:Hsrc.
    + rewrite (backup_zip_run fs source dest zf pats ts d src Hsrc Hzf) in Hzip.
      rewrite (backup_zip_run fs' source dest zf pats' ts d2 src' Hsrc' Hzf).
      destruct (dest_get (zip_backup_name source ts zf) d) as [[ms|c]|] eqn:E;
        try discriminate;
        injection Hzip as _ <-; rewrite dest_get_set; cbn [snd];
        apply dest_set_twice.
    + unfold backup_directory, try_except, bind, backup_body, ret, raise in Hzip.
      rewrite Hsrc in Hzip. discriminate.
Qed.

(** A run of X15 on the sample project. *)
Lemma second_backup_in_the_same_second_witness :
  exists d1 d2,
    backup_directory disk project_path backups_path None None "20260101_000000" d1 =
      (Ok None, d1) /\
    snd (backup_directory disk project_path backups_path (Some "nightly") None
           "20260101_000000" d2) =
      dest_set (zip_backup_name project_path "20260101_000000" "nightly")
        (ZipArchive (zip_members None project_path
           (Dir [("a.txt", File (plain_file "alpha")); ("b.log", File (plain_file "beta"));
                 ("sub", Dir [("c.txt", File (plain_file "gamma"))])]))) [].
Proof.
  eexists. eexists.
  refine (second_backup_in_the_same_second disk disk project_path backups_path
            None None "20260101_000000" "nightly" [] _ _ _ _ _ _ _ _ _).
  - reflexivity.
  - discriminate.
  - reflexivity.
  - reflexivity.
Defined.

(** X16.  The path the zip mode returns ends in [.zip], whether the name
    that was given ends in [.zip] or not. *)
Theorem zip_backup_path_ends_in_zip
    (fs : node) (source dest : path) (pats : option (list string))
    (ts zf : string) (d d1 : dest_dir) (p : string) :
  zf <> "" ->
  backup_directory fs source dest (Some zf) pats ts d = (Ok (Some p), d1) ->
  endswith p ".zip" = true /\
  zip_backup_name source ts (zip_filename zf) = zip_backup_name source ts zf.
Proof.
  intros Hzf Hrun. split.
  - destruct (tree_get source fs) as [src|] eqn:Hsrc.
    + rewrite (backup_zip_run fs source dest zf pats ts d src Hsrc Hzf) in Hrun.
      assert (Hp : p = path_str (dest ++ [zip_backup_name source ts zf])).
      { destruct (dest_get (zip_backup_name source ts zf) d) as [[ms|c]|];
          try discriminate; destruct (forallb _ _); now inversion Hrun. }
      rewrite Hp. destruct (path_str_snoc_sep dest (zip_backup_name source ts zf)) as [pre ->].
      apply endswith_app.
      apply (endswith_app (String sep "")). unfold zip_backup_name.
      do 4 apply endswith_app. apply zip_filename_ends.
    + unfold backup_directory, try_except, bind, backup_body, ret, raise in Hrun.
      rewrite Hsrc in Hrun. discriminate.
  - unfold zip_backup_name. do 4 f_equal.
    unfold zip_filename at 1. now rewrite zip_filename_ends.
Qed.

(** A run of X16: the name [nightly] of the sample backup. *)
Lemma zip_backup_path_ends_in_zip_witness :
  endswith "/backups/project_20260101_000000_nightly.zip" ".zip" = true /\
  zip_backup_name project_path "20260101_000000" (zip_filename "nightly") =
  zip_backup_name project_path "20260101_000000" "nightly".
Proof.
  refine (zip_backup_path_ends_in_zip disk project_path backups_path None
            "20260101_000000" "nightly" [] _ _ _ _).
  - discriminate.
  - reflexivity.
Defined.

End BackupNames.


(** ** The menu *)

Module MenuFacts.
Import PathText PathFacts Menu.
Local Open Scope string_scope.

Lemma lstrip_first (s : string) : no_space_first (lstrip s) = true.
Proof.
  induction s as [|c r IH]; [reflexivity|]. simpl.
  destruct (is_space c) eqn:E; [exact IH|]. simpl. now rewrite E.
Qed.

Lemma lstrip_fixed (s : string) : no_space_first s = true -> lstrip s = s.
Proof.
  destruct s as [|c r]; [reflexivity|]. simpl. intros H.
  apply negb_true_iff in H. now rewrite H.
Qed.

Lemma rstrip_cons (c : ascii) (r : string) :
  rstrip (String c r) =
  match rstrip r with
  | EmptyString => if is_space c then EmptyString else String c EmptyString
  | r' => String c r'
  end.
Proof. reflexivity. Qed.

Lemma rstrip_last (s : string) : no_space_last (rstrip s) = true.
Proof.
  induction s as [|c r IH]; [reflexivity|]. rewrite rstrip_cons.
  destruct (rstrip r) as [|c' r'] eqn:E.
  - destruct (is_space c) eqn:Ec; [reflexivity|]. simpl. now rewrite Ec.
  - exact IH.
Qed.

Lemma rstrip_fixed (s : string) : no_space_last s = true -> rstrip s = s.
Proof.
  induction s as [|c r IH]; [reflexivity|]. intros H. rewrite rstrip_cons.
  destruct r as [|c' r'].
  - simpl in *. apply negb_true_iff in H. now rewrite H.
  - rewrite (IH H). reflexivity.
Qed.

Lemma lstrip_keeps_last (s : string) :
  no_space_last s = true -> no_space_last (lstrip s) = true.
Proof.
  induction s as [|c r IH]; [reflexivity|]. intros H. simpl lstrip.
  destruct (is_space c) eqn:E; [|exact H].
  apply IH. destruct r as [|c' r']; [reflexivity | exact H].
Qed.

Lemma lstrip_rstrip (s : string) : lstrip (rstrip s) = rstrip (lstrip s).
Proof.
  induction s as [|c r IH]; [reflexivity|].
  rewrite rstrip_cons. simpl lstrip.
  destruct (is_space c) eqn:E.
  - rewrite <- IH. destruct (rstrip r) as [|c' r']; [reflexivity|].
    simpl. now rewrite E.
  - rewrite rstrip_cons.
    destruct (rstrip r) as [|c' r']; simpl; now rewrite E.
Qed.

Lemma strip_fixed (s : string) :
  no_space_first s = true -> no_space_last s = true -> strip s = s.
Proof.
  intros Hf Hl. unfold strip. now rewrite (rstrip_fixed s Hl), (lstrip_fixed s Hf).
Qed.

Lemma strip_ends (s : string) :
  no_space_first (strip s) = true /\ no_space_last (strip s) = true.
Proof.
  unfold strip. split.
  - apply lstrip_first.
  - apply lstrip_keeps_last, rstrip_last.
Qed.

(** Stripping twice is stripping once. *)
Lemma strip_strip (s : string) : strip (strip s) = strip s.
Proof. destruct (strip_ends s) as [Hf Hl]. now apply strip_fixed. Qed.

Lemma stripped_strip (s : string) : stripped (strip s) = true.
Proof. unfold stripped. rewrite strip_strip. apply String.eqb_refl. Qed.

Lemma strip_lstrip (s : string) : strip (lstrip s) = strip s.
Proof.
  unfold strip. rewrite lstrip_rstrip, (lstrip_fixed (lstrip s) (lstrip_first s)).
  now rewrite lstrip_rstrip.
Qed.

Lemma strip_rstrip (s : string) : strip (rstrip s) = strip s.
Proof. unfold strip. now rewrite (rstrip_fixed (rstrip s) (rstrip_last s)). Qed.

(** *** Commas *)

Lemma has_comma_lstrip (s : string) : has_comma s = false -> has_comma (lstrip s) = false.
Proof.
  induction s as [|c r IH]; [reflexivity|]. intros H. simpl lstrip.
  destruct (is_space c); [|exact H].
  simpl in H. apply orb_false_iff in H as [_ H]. now apply IH.
Qed.

Lemma has_comma_rstrip (s : string) : has_comma s = false -> has_comma (rstrip s) = false.
Proof.
  induction s as [|c r IH]; [reflexivity|]. intros H. rewrite rstrip_cons.
  simpl in H. apply orb_false_iff in H as [Hc H]. specialize (IH H).
  destruct (rstrip r) as [|c' r'].
  - destruct (is_space c); [reflexivity|]. simpl. now rewrite Hc.
  - change (has_comma (String c (String c' r')))
      with (Ascii.eqb c "," || has_comma (String c' r')).
    now rewrite Hc, IH.
Qed.

Lemma has_comma_strip (s : string) : has_comma s = false -> has_comma (strip s) = false.
Proof. intros H. unfold strip. now apply has_comma_lstrip, has_comma_rstrip. Qed.

Lemma split_comma_not_nil (s : string) : split_comma s <> [].
Proof.
  induction s as [|c r IH]; simpl; [discriminate|].
  destruct (Ascii.eqb c ","); [discriminate|].
  destruct (split_comma r); discriminate.
Qed.

Lemma split_comma_pieces (s : string) :
  forallb (fun p => negb (has_comma p)) (split_comma s) = true.
Proof.
  induction s as [|c r IH]; simpl; [reflexivity|].
  destruct (Ascii.eqb c ",") eqn:E; [exact IH|].
  destruct (split_comma r) as [|h t]; simpl in *.
  - now rewrite E.
  - now rewrite E.
Qed.

(** The pieces of a joined list of comma-free texts are the texts. *)
Lemma split_comma_app (q rest : string) :
  has_comma q = false ->
  split_comma (q ++ String "," rest) = q :: split_comma rest.
Proof.
  induction q as [|c q IH]; intros H; [reflexivity|].
  simpl in H. apply orb_false_iff in H as [Hc H].
  change (String c q ++ String "," rest) with (String c (q ++ String "," rest)).
  cbn [split_comma]. rewrite Hc, (IH H). reflexivity.
Qed.

Lemma split_comma_plain (q : string) : has_comma q = false -> split_comma q = [q].
Proof.
  induction q as [|c q IH]; intros H; [reflexivity|].
  simpl in H. apply orb_false_iff in H as [Hc H].
  cbn [split_comma]. rewrite Hc, (IH H). reflexivity.
Qed.

Lemma split_comma_concat (qs : list string) :
  qs <> [] ->
  forallb (fun q => negb (has_comma q)) qs = true ->
  split_comma (String.concat "," qs) = qs.
Proof.
  induction qs as [|q qs IH]; [contradiction|]. intros _ H.
  simpl in H. apply andb_true_iff in H as [Hq H]. apply negb_true_iff in Hq.
  destruct qs as [|q' qs].
  - simpl. now apply split_comma_plain.
  - change (String.concat "," (q :: q' :: qs))
      with (q ++ String "," (String.concat "," (q' :: qs))).
    rewrite split_comma_app by assumption. f_equal. apply IH; [discriminate | exact H].
Qed.

Lemma lstrip_before_comma (q rest : string) :
  lstrip (q ++ String "," rest) = lstrip q ++ String "," rest.
Proof.
  induction q as [|c q IH]; [reflexivity|].
  change (String c q ++ String "," rest) with (String c (q ++ String "," rest)).
  simpl lstrip. destruct (is_space c); [exact IH | reflexivity].
Qed.

Lemma rstrip_after_comma (x q : string) :
  rstrip (x ++ String "," q) = x ++ String "," (rstrip q).
Proof.
  induction x as [|c x IH].
  - simpl append. rewrite rstrip_cons. now destruct (rstrip q).
  - change (String c x ++ String "," q) with (String c (x ++ String "," q)).
    rewrite rstrip_cons, IH. now destruct x.
Qed.

Lemma lstrip_concat (q : string) (qs : list string) :
  lstrip (String.concat "," (q :: qs)) = String.concat "," (lstrip q :: qs).
Proof.
  destruct qs as [|q' qs]; [reflexivity|].
  change (String.concat "," (q :: q' :: qs))
    with (q ++ String "," (String.concat "," (q' :: qs))).
  now rewrite lstrip_before_comma.
Qed.

Lemma concat_comma_snoc (l : list string) (q : string) :
  l <> [] ->
  String.concat "," (l ++ [q])%list = String.concat "," l ++ String "," q.
Proof.
  induction l as [|x l IH]; intros Hne; [contradiction|].
  destruct l as [|y l].
  - reflexivity.
  - change (String.concat "," ((x :: y :: l) ++ [q])%list)
      with (x ++ String "," (String.concat "," ((y :: l) ++ [q])%list)).
    rewrite IH by discriminate.
    change (String.concat "," (x :: y :: l))
      with (x ++ String "," (String.concat "," (y :: l))).
    rewrite append_assoc. reflexivity.
Qed.

Lemma rstrip_concat (l : list string) (q : string) :
  rstrip (String.concat "," (l ++ [q])%list) = String.concat "," (l ++ [rstrip q])%list.
Proof.
  destruct l as [|x l]; [reflexivity|].
  rewrite !concat_comma_snoc by discriminate.
  apply rstrip_after_comma.
Qed.


(** *** One round *)

Ltac round_step :=
  cbv [menu_round io_bind input print perform emit io_ret io_raise after
       stdin trace fst snd].

Ltac round_cases :=
  round_step;
  repeat
    (match goal with
     | |- context [match ?l with [] => _ | _ :: _ => _ end] =>
         is_var l; destruct l; round_step
     | |- context [if ?b then _ else _] => destruct b eqn:?; round_step
     | |- context [match int_of_string ?x with _ => _ end] =>
         destruct (int_of_string x) eqn:?; round_step
     end).

(** A round does not look at what happened before it. *)
Lemma menu_round_after (lines : list string) (tr : list event) :
  menu_round (mkIO lines tr) = after tr (menu_round (mkIO lines [])).
Proof.
  round_cases; cbn [app]; rewrite <- ?app_assoc; reflexivity.
Qed.

Lemma exclude_of_well_formed (line : string) :
  match exclude_of (strip line) with
  | Some [] => false
  | Some ps => forallb pattern_text ps
  | None => true
  end = true.
Proof.
  unfold exclude_of. destruct (strip line =? ""); [reflexivity|].
  pose proof (split_comma_not_nil (strip line)) as Hne.
  pose proof (split_comma_pieces (strip line)) as Hp.
  destruct (split_comma (strip line)) as [|q qs]; [contradiction|].
  assert (H : forall l, forallb (fun p => negb (has_comma p)) l = true ->
                        forallb pattern_text (map strip l) = true).
  { induction l as [|x l IH]; [reflexivity|]. simpl. intros Hx.
    apply andb_true_iff in Hx as [Hx Hl]. rewrite (IH Hl), andb_true_r.
    unfold pattern_text. rewrite stripped_strip. simpl.
    apply negb_true_iff in Hx. now rewrite (has_comma_strip x Hx). }
  exact (H (q :: qs) Hp).
Qed.

Lemma pattern_or_star (line : string) :
  let pattern := if strip line =? "" then "*" else strip line in
  stripped pattern && negb (pattern =? "") = true.
Proof.
  cbv zeta. destruct (strip line =? "") eqn:E; [reflexivity|].
  now rewrite stripped_strip, E.
Qed.

(** The calls of a round are well formed. *)
Lemma menu_round_calls (lines : list string) :
  forallb well_formed (calls (trace (snd (menu_round (mkIO lines []))))) = true.
Proof.
  round_cases; cbn [app calls forallb well_formed]; try reflexivity;
    rewrite ?stripped_strip, ?andb_true_r; cbn [andb]; try reflexivity.
  - apply exclude_of_well_formed.
  - apply exclude_of_well_formed.
  - match goal with H : (strip ?l =? "") = false |- _ => rewrite H end. reflexivity.
  - match goal with H : (strip ?l =? "") = false |- _ => rewrite H end. reflexivity.
Qed.

Lemma last_cons {A : Type} (t : list A) (x d : A) : last (x :: t) d = last t x.
Proof.
  revert x d. induction t as [|y t IH]; intros x d; [reflexivity|].
  change (last (x :: y :: t) d) with (last (y :: t) d).
  now rewrite !IH.
Qed.

Lemma last_app_cons {A : Type} (tr t : list A) (x d : A) :
  last (tr ++ x :: t)%list d = last (x :: t) d.
Proof.
  induction tr as [|y tr IH]; [reflexivity|].
  cbn [app]. rewrite <- IH. now destruct tr.
Qed.

Lemma last_event_app (tr t : list event) (e : event) :
  last_event t = Some e -> last_event (tr ++ t)%list = Some e.
Proof.
  destruct t as [|x t]; [discriminate|]. cbn [last_event]. intros [= <-].
  destruct tr as [|y tr]; [reflexivity|].
  cbn [app last_event]. f_equal.
  rewrite <- (last_cons (tr ++ x :: t)%list y y), <- (last_cons t x y).
  apply (last_app_cons (y :: tr) t x y).
Qed.

(** How a round ends: it goes on after reading at least one line, or it
    ends [main]. *)
Lemma menu_round_ends (lines : list string) :
  (fst (menu_round (mkIO lines [])) = Returned true /\
   length (stdin (snd (menu_round (mkIO lines [])))) < length lines) \/
  (exists s, menu_round (mkIO lines []) = (Returned false, s) /\
             ended (Returned tt, s)) \/
  (exists e s, menu_round (mkIO lines []) = (Raised e, s) /\
               ended (Raised e, s)).
Proof.
  unfold ended.
  round_cases; cbn [length];
    first
      [ left; split; [reflexivity | lia]
      | right; left; eexists; split; [reflexivity|]; left; split; reflexivity
      | right; right; eexists; eexists; split; [reflexivity|];
        first [ right; left; split; [reflexivity|]; split; [reflexivity|];
                eexists; reflexivity
              | right; right; split; reflexivity ] ].
Qed.

(** *** The loop *)

Lemma after_after {A : Type} (t1 t2 : list event) (r : outcome A * io) :
  after t1 (after t2 r) = after (t1 ++ t2)%list r.
Proof. unfold after. cbn [fst snd stdin trace]. now rewrite app_assoc. Qed.

Lemma main_loop_S (n : nat) (s : io) :
  main_loop (S n) s =
  match menu_round s with
  | (Returned true, s') => main_loop n s'
  | (Returned false, s') => (Returned tt, s')
  | (Raised e, s') => (Raised e, s')
  | (Running, s') => (Running, s')
  end.
Proof.
  cbn [main_loop]. unfold io_bind, io_ret.
  destruct (menu_round s) as [[[|]|e|] s']; reflexivity.
Qed.

(** The loop does not look at what happened before it. *)
Lemma main_loop_after (n : nat) (lines : list string) (tr : list event) :
  main_loop n (mkIO lines tr) = after tr (main_loop n (mkIO lines [])).
Proof.
  revert lines tr. induction n as [|n IH]; intros lines tr.
  - unfold after. cbn. now rewrite app_nil_r.
  - rewrite !main_loop_S, menu_round_after.
    destruct (menu_round (mkIO lines [])) as [o [l t]].
    unfold after at 1. cbn [fst snd stdin trace].
    destruct o as [[|]|e|]; try reflexivity.
    now rewrite (IH l (tr ++ t)%list), (IH l t), after_after.
Qed.

Lemma ended_after (t : list event) (r : outcome unit * io) :
  ended r -> ended (after t r).
Proof.
  unfold ended, after. cbn [fst snd stdin trace].
  intros [[Ho Hl] | [(Ho & Hs & p & Hl) | [Ho Hl]]].
  - left. split; [exact Ho | now apply last_event_app].
  - right. left. split; [exact Ho|]. split; [exact Hs|].
    exists p. now apply last_event_app.
  - right. right. split; [exact Ho | now apply last_event_app].
Qed.

(** With more rounds than there are lines the loop ends, and further rounds
    change nothing. *)
Lemma main_loop_enough (n : nat) (lines : list string) :
  length lines < n ->
  ended (main_loop n (mkIO lines [])) /\
  forall m, n <= m -> main_loop m (mkIO lines []) = main_loop n (mkIO lines []).
Proof.
  revert lines. induction n as [|n IH]; intros lines Hn; [lia|].
  rewrite main_loop_S.
  destruct (menu_round_ends lines) as [[Ho Hl] | [(s & E & He) | (e & s & E & He)]].
  - destruct (menu_round (mkIO lines [])) as [o [l t]] eqn:E.
    cbn [fst snd stdin] in Ho, Hl. subst o.
    destruct (IH l ltac:(lia)) as [Hend Hm].
    rewrite main_loop_after. split; [now apply ended_after|].
    intros [|m] Hle; [lia|].
    rewrite main_loop_S, E, main_loop_after. f_equal. apply Hm. lia.
  - rewrite E. split; [exact He|].
    intros [|m] Hle; [lia|]. now rewrite main_loop_S, E.
  - rewrite E. split; [exact He|].
    intros [|m] Hle; [lia|]. now rewrite main_loop_S, E.
Qed.

Lemma calls_app (a b : list event) : calls (a ++ b)%list = (calls a ++ calls b)%list.
Proof.
  induction a as [|[l|p|c] a IH]; cbn [app calls]; [reflexivity | exact IH | exact IH|].
  now rewrite IH.
Qed.

Lemma main_loop_calls (n : nat) (lines : list string) :
  forallb well_formed (calls (trace (snd (main_loop n (mkIO lines []))))) = true.
Proof.
  revert lines. induction n as [|n IH]; intros lines; [reflexivity|].
  rewrite main_loop_S. pose proof (menu_round_calls lines) as Hr.
  destruct (menu_round (mkIO lines [])) as [[[|]|e|] [l t]]; try exact Hr.
  rewrite main_loop_after. unfold after. cbn [fst snd stdin trace] in *.
  now rewrite calls_app, forallb_app, Hr, IH.
Qed.

(** A round that goes on is followed by [main] on the lines it left. *)
Lemma main_unroll (lines rest : list string) (t : list event) :
  menu_round (mkIO lines []) = (Returned true, mkIO rest t) ->
  main lines = after t (main rest).
Proof.
  intros E. unfold main. rewrite main_loop_S, E, main_loop_after. f_equal.
  destruct (menu_round_ends lines) as [[_ Hl] | [(s & E' & _) | (e & s & E' & _)]];
    [| congruence | congruence].
  rewrite E in Hl. cbn [snd stdin] in Hl.
  apply (main_loop_enough (S (length rest)) rest); lia.
Qed.

(** *** Numbers *)



End MenuFacts.

Section MenuTheorems.
Import PathText PathFacts Menu MenuFacts.

(** X17.  [main] ends on every input: the loop never runs on once the lines
    of standard input are used up.  It returns only after the choice 0,
    having printed [Exiting.]; otherwise it is ended by [EOFError], raised
    at a prompt when no line is left, or by [ValueError], raised at the
    prompt for the age of the files. *)
Theorem main_ends (lines : list string) :
  (fst (main lines) = Returned tt /\
   last_event (trace (snd (main lines))) = Some (Printed "Exiting.")) \/
  (fst (main lines) = Raised EOFError /\ stdin (snd (main lines)) = [] /\
   exists prompt, last_event (trace (snd (main lines))) = Some (Asked prompt)) \/
  (fst (main lines) = Raised (Exn ValueError) /\
   last_event (trace (snd (main lines))) =
     Some (Asked "Remove files older than days (number) or leave blank: ")).
Proof.
  exact (proj1 (main_loop_enough (S (length lines)) lines (Nat.lt_succ_diag_r _))).
Qed.

(** X18.  Whatever is typed, every operation [main] calls gets well-formed
    arguments: texts without white space at their ends, a pattern for
    [clean_directory] that is not empty, and for [backup_directory] either
    no exclusion list or a list that is not empty and whose patterns hold
    no comma. *)
Theorem main_calls_are_well_formed (lines : list string) :
  forallb well_formed (calls (trace (snd (main lines)))) = true.
Proof. apply main_loop_calls. Qed.

(** X19.  A choice that is none of 1, 2, 3 and 0 calls nothing: [main]
    prints the menu, the prompt and the complaint, and goes on with the
    lines that follow as if it had just been started on them. *)
Theorem unknown_choice_shows_the_menu_again (line : string) (rest : list string) :
  ~ In (strip line) ["1"; "2"; "3"; "0"] ->
  main (line :: rest) =
  after (menu ++ [Asked "Enter option number: ";
                  Printed "Invalid choice. Please select a valid option."])
        (main rest).
Proof.
  intros Hno. apply main_unroll.
  assert (H1 : (strip line =? "1") = false) by (apply String.eqb_neq; intros E; apply Hno; rewrite E; simpl; tauto).
  assert (H2 : (strip line =? "2") = false) by (apply String.eqb_neq; intros E; apply Hno; rewrite E; simpl; tauto).
  assert (H3 : (strip line =? "3") = false) by (apply String.eqb_neq; intros E; apply Hno; rewrite E; simpl; tauto).
  assert (H0 : (strip line =? "0") = false) by (apply String.eqb_neq; intros E; apply Hno; rewrite E; simpl; tauto).
  round_step. rewrite H1, H2, H3, H0. reflexivity.
Qed.

(** A run of X19: the answer [x], then the choice 0. *)
Lemma unknown_choice_shows_the_menu_again_witness :
  main ["x"; "0"] =
  after (menu ++ [Asked "Enter option number: ";
                  Printed "Invalid choice. Please select a valid option."])
        (main ["0"]).
Proof.
  apply (unknown_choice_shows_the_menu_again "x" ["0"]).
  simpl. intros [H | [H | [H | [H | []]]]]; discriminate.
Defined.



(** X21.  The exclusion list [main] builds from an answer that is not blank
    holds the texts between the commas of the answer, in order, each without
    the white space around it. *)
Theorem exclusion_list_as_typed (qs : list string) :
  forallb (fun q => negb (has_comma q)) qs = true ->
  strip (String.concat "," qs) <> "" ->
  exclude_of (strip (String.concat "," qs)) = Some (map strip qs).
Proof.
  intros Hq Hne.
  assert (Hnil : qs <> []) by (intros ->; now apply Hne).
  destruct (exists_last Hnil) as (l & q & ->).
  assert (E : exists q1 r,
            (l ++ [rstrip q])%list = q1 :: r /\
            strip (String.concat "," (l ++ [q])%list) =
              String.concat "," (lstrip q1 :: r)).
  { destruct (l ++ [rstrip q])%list as [|q1 r] eqn:El.
    - now destruct l.
    - exists q1, r. split; [reflexivity|].
      unfold strip. now rewrite rstrip_concat, El, lstrip_concat. }
  destruct E as (q1 & r & El & Es).
  rewrite Es in *. unfold exclude_of.
  apply String.eqb_neq in Hne. rewrite Hne. f_equal.
  rewrite forallb_app in Hq. apply andb_true_iff in Hq as [Hl Hq1].
  cbn [forallb] in Hq1. rewrite andb_true_r in Hq1. apply negb_true_iff in Hq1.
  assert (Hfree : forallb (fun q => negb (has_comma q)) (q1 :: r) = true).
  { rewrite <- El, forallb_app, Hl. cbn [forallb andb].
    now rewrite (has_comma_rstrip q Hq1). }
  cbn [forallb] in Hfree. apply andb_true_iff in Hfree as [Hq1' Hr].
  apply negb_true_iff in Hq1'.
  rewrite split_comma_concat; [|discriminate|].
  - cbn [map]. rewrite strip_lstrip.
    change (strip q1 :: map strip r) with (map strip (q1 :: r)).
    rewrite <- El, !map_app. cbn [map]. now rewrite strip_rstrip.
  - cbn [forallb]. now rewrite (has_comma_lstrip q1 Hq1'), Hr.
Qed.

(** A run of X21: the answer [ *.tmp, build ,*.log]. *)
Lemma exclusion_list_as_typed_witness :
  exclude_of (strip (String.concat "," [" *.tmp"; " build "; "*.log"])) =
  Some (map strip [" *.tmp"; " build "; "*.log"]).
Proof.
  apply (exclusion_list_as_typed [" *.tmp"; " build "; "*.log"]).
  - reflexivity.
  - discriminate.
Defined.

End MenuTheorems.
